(** * Pulse-interval histogram on the 68HCS12: capture ISR, bucketing, report

    A shallow embedding of [src/main.c] and [src/globals.h].  The globals of
    the program and the timer registers it touches are the fields of one
    machine state; every C function is a computation on that state.  Each
    computation also appends the effects it performs (register writes,
    stores into the capture buffer, [printf] calls, the blocking [GetChar])
    to a trace, so that statements about the ORDER of effects can be made. *)

From Stdlib Require Import ZArith Lia List Bool Ascii String.
From Stdlib Require Import Numbers.DecimalString Sorting.Sorted.
From stdpp Require Import base list.
Import ListNotations.

Local Open Scope Z_scope.

(** ** Fixed-width integers *)

(** Modelled from the spec: [types.h] is not among the sources; [UINT16] is
    the 16-bit unsigned type ("16-bit wraparound"), so every value stored in
    a [UINT16] object is reduced modulo [2^16]. *)
Definition wrap16 (z : Z) : Z := z mod 65536.

(** [UINT8], for [finished_capturing]. *)
Definition wrap8 (z : Z) : Z := z mod 256.

(** ** Compile-time constants *)

Definition NUM_CAPTURES : Z := 1000.      (* globals.h:4 *)
Definition LOW_PERIOD : Z := 0x03B6.      (* main.c:36 *)
Definition NUM_BUCKETS : Z := 100.        (* main.c:37 *)

(** Modelled from the spec: [derivative.h] is not among the sources.  The
    mask selects the channel-1 bit of the timer flag register [TFLG1]; a
    write of the mask acknowledges (clears) that pending flag and leaves the
    other channels' flags alone. *)
Definition TFLG1_C1F_MASK : Z := 2.

(** ** Observable effects *)

Inductive event : Type :=
| EvStore (idx v : Z)                       (* capture_values[idx] = v   *)
| EvCursor (v : Z)                          (* capture_idx = v           *)
| EvFinished (v : Z)                        (* finished_capturing = v    *)
| EvIrqEnable (v : Z)                       (* TIE_C1I = v               *)
| EvAck (mask : Z)                          (* TFLG1 = mask              *)
| EvMemset                                  (* memset(num_occurances,0,..) *)
| EvGetChar (ch : Z)                        (* GetChar() returned ch     *)
| EvPrintf (fmt : string) (args : list Z).  (* printf(fmt, args...)      *)

(** ** Machine state: the globals of main.c and the timer registers *)

Record machine : Type := Machine {
  num_occurances : list Z;       (* UINT16 num_occurances[NUM_BUCKETS]  *)
  capture_values : list Z;       (* UINT16 capture_values[NUM_CAPTURES] *)
  capture_idx : Z;               (* UINT16 capture_idx                  *)
  finished_capturing : Z;        (* UINT8 finished_capturing            *)
  TC1 : Z;                       (* input-capture register, channel 1   *)
  TIE_C1I : Z;                   (* channel-1 interrupt enable bit      *)
  TFLG1 : Z;                     (* timer interrupt flag register       *)
  trace : list event             (* effects so far, oldest first        *)
}.

Definition with_num_occurances (v : list Z) (s : machine) : machine :=
  Machine v (capture_values s) (capture_idx s) (finished_capturing s)
          (TC1 s) (TIE_C1I s) (TFLG1 s) (trace s).
Definition with_capture_values (v : list Z) (s : machine) : machine :=
  Machine (num_occurances s) v (capture_idx s) (finished_capturing s)
          (TC1 s) (TIE_C1I s) (TFLG1 s) (trace s).
Definition with_capture_idx (v : Z) (s : machine) : machine :=
  Machine (num_occurances s) (capture_values s) v (finished_capturing s)
          (TC1 s) (TIE_C1I s) (TFLG1 s) (trace s).
Definition with_finished_capturing (v : Z) (s : machine) : machine :=
  Machine (num_occurances s) (capture_values s) (capture_idx s) v
          (TC1 s) (TIE_C1I s) (TFLG1 s) (trace s).
Definition with_TC1 (v : Z) (s : machine) : machine :=
  Machine (num_occurances s) (capture_values s) (capture_idx s)
          (finished_capturing s) v (TIE_C1I s) (TFLG1 s) (trace s).
Definition with_TIE_C1I (v : Z) (s : machine) : machine :=
  Machine (num_occurances s) (capture_values s) (capture_idx s)
          (finished_capturing s) (TC1 s) v (TFLG1 s) (trace s).
Definition with_TFLG1 (v : Z) (s : machine) : machine :=
  Machine (num_occurances s) (capture_values s) (capture_idx s)
          (finished_capturing s) (TC1 s) (TIE_C1I s) v (trace s).
Definition with_trace (v : list event) (s : machine) : machine :=
  Machine (num_occurances s) (capture_values s) (capture_idx s)
          (finished_capturing s) (TC1 s) (TIE_C1I s) (TFLG1 s) v.

(** ** A small state monad for the C statements *)

Definition M (A : Type) : Type := machine -> A * machine.

#[global] Instance M_ret : MRet M := fun A a s => (a, s).
#[global] Instance M_bind : MBind M :=
  fun A B k c s => let (a, s') := c s in k a s'.

Definition read {A} (f : machine -> A) : M A := fun s => (f s, s).
Definition modify (f : machine -> machine) : M unit := fun s => (tt, f s).
Definition exec {A} (c : M A) (s : machine) : machine := snd (c s).

Definition log (e : event) : M unit :=
  modify (fun s => with_trace (trace s ++ [e]) s).

(** The assignments of the program, each a store followed by its trace entry. *)
Definition store_capture (idx v : Z) : M unit :=
  modify (fun s => with_capture_values (<[Z.to_nat idx := v]> (capture_values s)) s) ;;
  log (EvStore idx v).
Definition set_capture_idx (v : Z) : M unit :=
  modify (with_capture_idx v) ;; log (EvCursor v).
Definition set_finished_capturing (v : Z) : M unit :=
  modify (with_finished_capturing (wrap8 v)) ;; log (EvFinished v).
Definition set_TIE_C1I (v : Z) : M unit :=
  modify (with_TIE_C1I v) ;; log (EvIrqEnable v).

(** A write to [TFLG1] clears exactly the flag bits that are set in the
    written value (the timer's flags are acknowledged by writing a one). *)
Definition write_TFLG1 (v : Z) : M unit :=
  modify (fun s => with_TFLG1 (Z.ldiff (TFLG1 s) v) s) ;; log (EvAck v).

(** ** The capture ISR (main.c:149-165) *)

Definition OC1_isr : M unit :=
  idx ← read capture_idx ;
  (if idx <? NUM_CAPTURES then
     tc ← read TC1 ;
     store_capture idx (wrap16 tc) ;;
     set_capture_idx (wrap16 (idx + 1))
   else if idx =? NUM_CAPTURES then
     set_TIE_C1I 0 ;;
     set_finished_capturing 1
   else mret tt) ;;
  write_TFLG1 TFLG1_C1F_MASK.

(** ** The histogram (main.c:206-229) *)

Definition init_buckets : M unit :=
  modify (with_num_occurances (replicate (Z.to_nat NUM_BUCKETS) 0)) ;;
  log EvMemset.

(** The loop body on one adjacent pair: the two statements on [compare_idx]
    and the guarded increment. *)
Definition process_pair (prev cur : Z) (occ : list Z) : list Z :=
  let compare_idx := wrap16 (cur - prev) in
  let compare_idx := wrap16 (compare_idx - LOW_PERIOD) in
  if compare_idx <? 100 then
    <[Z.to_nat compare_idx := wrap16 (nth (Z.to_nat compare_idx) occ 0 + 1)]> occ
  else occ.

Definition process_iter (caps : list Z) (occ : list Z) (i : nat) : list Z :=
  process_pair (nth (i - 1) caps 0) (nth i caps 0) occ.

(** [for (i = 1; i < n; ++i)], for a buffer of [n] captures. *)
Definition loop_indices (n : nat) : list nat := seq 1 (n - 1).

Definition process_loop (n : nat) (caps occ : list Z) : list Z :=
  fold_left (process_iter caps) (loop_indices n) occ.

Definition process_values : M unit :=
  modify (fun s =>
    with_num_occurances
      (process_loop (Z.to_nat NUM_CAPTURES) (capture_values s) (num_occurances s)) s).

Definition zero_table : list Z := replicate (Z.to_nat NUM_BUCKETS) 0.

Definition table_sum (occ : list Z) : Z := foldr Z.add 0 occ.

(** ** The reporter (main.c:231-245) *)

Definition crlf : string := String "013" (String "010" EmptyString).

Definition fmt_finished : string := ("Finished capturing." ++ crlf)%string.
Definition fmt_buckets_used : string :=
  ("100 Buckets used; omitting empty buckets." ++ crlf)%string.
Definition fmt_bucket : string := ("Bucket %3d: %d" ++ crlf)%string.
Definition fmt_prompt : string := ("Strike enter to begin capture." ++ crlf)%string.

Definition printf (fmt : string) (args : list Z) : M unit :=
  log (EvPrintf fmt args).

Fixpoint for_each {A} (l : list A) (body : A -> M unit) : M unit :=
  match l with
  | [] => mret tt
  | x :: l' => body x ;; for_each l' body
  end.

(** Body of the reporting loop.  Both arguments are small here: the period
    [i + LOW_PERIOD] is at most 1049. *)
Definition print_bucket (i : nat) : M unit :=
  c ← read (fun s => nth i (num_occurances s) 0) ;
  if negb (c =? 0) then
    printf fmt_bucket [Z.of_nat i + LOW_PERIOD; c]
  else mret tt.

Definition print_values : M unit :=
  printf fmt_finished [] ;;
  printf fmt_buckets_used [] ;;
  for_each (seq 0 (Z.to_nat NUM_BUCKETS)) print_bucket.

(** ** The session controller (main.c:248-268) *)

(** [GetChar] polls the serial port until a character has arrived and
    returns it; [ch] is that character. *)
Definition GetChar (ch : Z) : M Z :=
  log (EvGetChar ch) ;; mret ch.

Definition pre_capture (ch : Z) : M unit :=
  printf fmt_prompt [] ;;
  init_buckets ;;
  set_finished_capturing 0 ;;
  set_capture_idx 0 ;;
  GetChar ch ;;
  set_TIE_C1I 1.

Definition post_capture : M unit :=
  process_values ;;
  print_values.

(** ** The timer peripheral *)

(** Modelled from the spec: the timer peripheral is hardware.  A qualifying
    edge latches the free-running counter into [TC1] and raises the
    channel-1 flag; the ISR is "invoked once per qualifying hardware edge
    while capture is armed", that is while [TIE_C1I] is set. *)
Definition latch_edge (tc : Z) : M unit :=
  modify (fun s => with_TFLG1 (Z.lor (TFLG1 s) TFLG1_C1F_MASK) (with_TC1 (wrap16 tc) s)).

(** One invocation of the ISR for an edge captured at timer value [tc]. *)
Definition isr_invocation (tc : Z) : M unit :=
  latch_edge tc ;; OC1_isr.

(** One edge at the pin: the ISR runs only if the interrupt is enabled. *)
Definition capture_edge (tc : Z) : M unit :=
  latch_edge tc ;;
  en ← read TIE_C1I ;
  if negb (en =? 0) then OC1_isr else mret tt.

Definition run_isrs (tcs : list Z) (s : machine) : machine :=
  fold_left (fun s tc => exec (isr_invocation tc) s) tcs s.

Definition run_edges (tcs : list Z) (s : machine) : machine :=
  fold_left (fun s tc => exec (capture_edge tc) s) tcs s.

(** One pass of the [for (;;)] loop of [main]: the controller arms the
    capture, spins in [while (!finished_capturing) {}] while the edges [tcs]
    arrive, and reports.  [finished_capturing] is not declared [volatile]
    (main.c:42, globals.h:10) and nothing in the loop writes it, so the
    source leaves open whether the compiled loop reads the flag again after
    the ISR has written it: [rereads] says whether it does.  A loop that
    reads the flag only once reads the zero that [pre_capture] has just
    stored and never exits; a loop that reads it again exits once the edges
    have completed the capture.  In every other case the round has no
    result: the controller spins for ever. *)
Definition main_round (rereads : bool) (ch : Z) (tcs : list Z) (s : machine)
  : option machine :=
  let s1 := exec (pre_capture ch) s in
  let s2 := run_edges tcs s1 in
  if rereads && negb (finished_capturing s2 =? 0)
  then Some (exec post_capture s2) else None.

(** ** Rendering of [printf] calls *)

Definition is_digit (c : ascii) : bool :=
  let n := nat_of_ascii c in (48 <=? n)%nat && (n <=? 57)%nat.

Definition pad_left (w : nat) (s : string) : string :=
  (string_of_list_ascii (repeat " "%char (w - String.length s)) ++ s)%string.

(** Signed decimal numeral, as [%d] prints an [int]. *)
Definition decimal (z : Z) : string := NilEmpty.string_of_int (Z.to_int z).

Section Printf.
(** The conversion the C library applies to the argument of a [%d]. *)
Variable conv_d : Z -> string.

(** Text produced for a format string: [%d] and [%<width>d] directives,
    everything else copied.  [dir] is [Some w] inside a directive whose
    width digits read so far make [w]. *)
Fixpoint render_format (dir : option nat) (fmt : string) (args : list Z) : string :=
  match fmt with
  | EmptyString => EmptyString
  | String c rest =>
      match dir with
      | None =>
          if Ascii.eqb c "%" then render_format (Some 0%nat) rest args
          else String c (render_format None rest args)
      | Some w =>
          if is_digit c then
            render_format (Some (10 * w + (nat_of_ascii c - 48))%nat) rest args
          else if Ascii.eqb c "d" then
            match args with
            | a :: args' =>
                (pad_left w (conv_d a) ++ render_format None rest args')%string
            | [] => render_format None rest []
            end
          else String c (render_format None rest args)
      end
  end.

Definition render_event (e : event) : list string :=
  match e with
  | EvPrintf fmt args => [render_format None fmt args]
  | _ => []
  end.

(** The text lines a trace writes to the serial port. *)
Definition rendered (tr : list event) : list string :=
  concat (map render_event tr).

(** The literal line of one bucket: [Bucket <period>: <count>]. *)
Definition bucket_line (period count : Z) : string :=
  ("Bucket " ++ pad_left 3 (conv_d period) ++ ": " ++ conv_d count ++ crlf)%string.
End Printf.

(** A reset, armed machine. *)
Definition armed (caps occ : list Z) : machine :=
  Machine occ caps 0 0 0 1 0 [].

(** ** Vocabulary of the statements *)

(** The events a computation appends to the trace. *)
Definition effects {A} (c : M A) (s : machine) : list event :=
  drop (length (trace s)) (trace (exec c s)).

(** The events appended to the trace between the states [s] and [s']. *)
Definition events_since (s s' : machine) : list event :=
  drop (length (trace s)) (trace s').

(** The normalised index of a pair, when it passes the guard of the loop. *)
Definition bucket_index (prev cur : Z) : option nat :=
  let compare_idx := wrap16 (wrap16 (cur - prev) - LOW_PERIOD) in
  if compare_idx <? 100 then Some (Z.to_nat compare_idx) else None.

(** The 16-bit wrapping difference lies in the histogram window. *)
Definition in_window (delta : Z) : Prop :=
  LOW_PERIOD <= delta < LOW_PERIOD + NUM_BUCKETS.

(** [occ'] is [occ] with exactly the counter at [k] incremented (as a
    [UINT16]) and every other counter untouched. *)
Definition incremented_at (occ occ' : list Z) (k : nat) : Prop :=
  length occ' = length occ /\
  (k < length occ)%nat /\
  nth k occ' 0 = wrap16 (nth k occ 0 + 1) /\
  forall j, j <> k -> nth j occ' 0 = nth j occ 0.

(** How many of the loop iterations [l] land in bucket [j]. *)
Definition hits (caps : list Z) (l : list nat) (j : nat) : nat :=
  length (filter (fun i => bucket_index (nth (i - 1) caps 0) (nth i caps 0) = Some j) l).

(** The table after the first [k] iterations of the loop of [process_values]. *)
Definition process_prefix (k : nat) (caps occ : list Z) : list Z :=
  fold_left (process_iter caps) (take k (loop_indices (Z.to_nat NUM_CAPTURES))) occ.

Definition is_store_in_bounds (e : event) : bool :=
  match e with
  | EvStore idx _ => (0 <=? idx) && (idx <? NUM_CAPTURES)
  | _ => true
  end.

Definition is_store (e : event) : bool :=
  match e with EvStore _ _ => true | _ => false end.

(** Completion is triggered: the flag is set. *)
Definition is_completion (e : event) : bool :=
  match e with EvFinished v => negb (v =? 0) | _ => false end.

Definition is_irq_disable (e : event) : bool :=
  match e with EvIrqEnable v => v =? 0 | _ => false end.

Definition count_events (p : event -> bool) (tr : list event) : nat :=
  length (filter (fun e => p e = true) tr).

(** Steps of the controller's round, as seen from the operator. *)
Definition is_prompt (e : event) : bool :=
  match e with EvPrintf _ _ => true | _ => false end.
Definition is_acknowledge (e : event) : bool :=
  match e with EvGetChar _ => true | _ => false end.
Definition is_reset_write (e : event) : bool :=
  match e with
  | EvMemset => true
  | EvFinished v => v =? 0
  | EvCursor v => v =? 0
  | _ => false
  end.
Definition is_arming (e : event) : bool :=
  match e with EvIrqEnable v => negb (v =? 0) | _ => false end.

(** Every [p]-event of the trace comes strictly before every [q]-event. *)
Definition precedes (p q : event -> bool) (tr : list event) : Prop :=
  forall i j e e',
    tr !! i = Some e -> tr !! j = Some e' ->
    p e = true -> q e' = true -> (i < j)%nat.

(** The order of steps the controller is said to follow: prompt and blocking
    acknowledgement, then the resets, then arming. *)
Definition acknowledge_reset_arm (tr : list event) : Prop :=
  precedes is_acknowledge is_reset_write tr /\
  precedes is_reset_write is_arming tr.

(** The order [pre_capture] follows: the resets, then the blocking
    acknowledgement, then arming. *)
Definition reset_acknowledge_arm (tr : list event) : Prop :=
  precedes is_prompt is_reset_write tr /\
  precedes is_reset_write is_acknowledge tr /\
  precedes is_acknowledge is_arming tr.

(** The program's activities between two rounds' resets. *)
Inductive activity : Type :=
| ActIsr (tc : Z)            (* OC1_isr on an edge                  *)
| ActEdge (tc : Z)           (* an edge, ISR gated by TIE_C1I       *)
| ActInitBuckets
| ActProcess                 (* process_values                      *)
| ActPrint                   (* print_values                        *)
| ActPostCapture
| ActPreCapture (ch : Z).    (* the controller's round reset        *)

Definition perform (a : activity) : M unit :=
  match a with
  | ActIsr tc => isr_invocation tc
  | ActEdge tc => capture_edge tc
  | ActInitBuckets => init_buckets
  | ActProcess => process_values
  | ActPrint => print_values
  | ActPostCapture => post_capture
  | ActPreCapture ch => pre_capture ch
  end.

Definition is_round_reset (a : activity) : bool :=
  match a with ActPreCapture _ => true | _ => false end.

Definition run_activities (acts : list activity) (s : machine) : machine :=
  fold_left (fun s a => exec (perform a) s) acts s.

(** The sample buffer of the worked example, padded to the full capacity
    with repetitions of the last sample. *)
Definition example_samples : list Z := [1000; 2000; 2976; 5000].
Definition example_snapshot : list Z :=
  example_samples ++ replicate (Z.to_nat NUM_CAPTURES - 4) 5000.

(** The indices the reporter prints: the non-zero counters, in the order
    of the loop. *)
Definition used_buckets (occ : list Z) : list nat :=
  filter (fun i => nth i occ 0 <> 0) (seq 0 (Z.to_nat NUM_BUCKETS)).

(** The [printf] call of the reporting loop for bucket [i]. *)
Definition bucket_call (occ : list Z) (i : nat) : event :=
  EvPrintf fmt_bucket [Z.of_nat i + LOW_PERIOD; nth i occ 0].

(** A table that is non-zero at the indices 3 and 80 only. *)
Definition example_table : list Z :=
  <[3%nat := 7]> (<[80%nat := 12]> zero_table).

(** A full round of edges one millisecond apart: one thousand timer values. *)
Definition ramp_samples : list Z :=
  map (fun k => wrap16 (1000 * Z.of_nat k)) (seq 0 (Z.to_nat NUM_CAPTURES)).

(** ** The remaining code of main.c *)

(** Modelled from the spec: [types.h] is not among the sources; [UINT32] is
    the 32-bit unsigned type. *)
Definition wrap32 (z : Z) : Z := z mod 4294967296.

(** The timer-compare macros (main.c:56-71), with the output frequency
    [OC_FREQ_HZ] as an argument as the comment on it invites: the quotient is
    computed in [UINT32] and cast to [UINT16]. *)
Definition BUS_CLK_FREQ : Z := wrap32 2000000.
Definition PRESCALE : Z := wrap16 2.
Definition OC_FREQ_HZ : Z := wrap16 10.
Definition TC1_VAL_at (oc_freq_hz : Z) : Z :=
  wrap16 (wrap32 (wrap32 (wrap32 (BUS_CLK_FREQ / PRESCALE) / 2) / oc_freq_hz)).
Definition TC1_VAL : Z := TC1_VAL_at OC_FREQ_HZ.

(** [GetChar] (main.c:194-204) against the receiver.  [rx] lists, poll by
    poll, what the loop reads in [SCI0SR1_RDRF] and what [SCI0DRL] holds at
    that moment.  The result is the character returned and the polls not yet
    consumed; there is none when the flag stays clear for all of [rx]: the
    loop is still spinning. *)
Fixpoint GetChar_polled (rx : list (Z * Z)) : option (Z * list (Z * Z)) :=
  match rx with
  | [] => None
  | (rdrf, drl) :: rx' =>
      if rdrf =? 0 then GetChar_polled rx' else Some (wrap8 drl, rx')
  end.

(** [TERMIO_PutChar] (main.c:177-187) against the transmitter.  [tx] lists
    what the loop reads in [SCI0SR1_TC]; the result is the byte written to
    [SCI0DRL] and the polls not yet consumed. *)
Fixpoint TERMIO_PutChar_polled (ch : Z) (tx : list Z) : option (Z * list Z) :=
  match tx with
  | [] => None
  | tc :: tx' =>
      if tc =? 0 then TERMIO_PutChar_polled ch tx' else Some (wrap8 ch, tx')
  end.


(** The samples a round keeps of the edges [tcs], and their histogram. *)
Definition kept_samples (tcs : list Z) : list Z :=
  map wrap16 (take (Z.to_nat NUM_CAPTURES) tcs).
Definition histogram_of (tcs : list Z) : list Z :=
  process_loop (Z.to_nat NUM_CAPTURES) (kept_samples tcs) zero_table.

(** How many adjacent pairs of [samples], at the indices [i - 1] and [i]
    for [i] from 1 to 999, are exactly [j + LOW_PERIOD] ticks apart in
    16-bit wrapping arithmetic. *)
Definition interval_count (samples : list Z) (j : nat) : nat :=
  length (filter (fun i => wrap16 (nth i samples 0 - nth (i - 1) samples 0)
                           = Z.of_nat j + LOW_PERIOD)
                 (seq 1 999)).

(** The loop iterations of [process_values] whose pair passes the guard. *)
Definition counted_pairs (caps : list Z) : list nat :=
  filter (fun i => is_Some (bucket_index (nth (i - 1) caps 0) (nth i caps 0)))
         (loop_indices (Z.to_nat NUM_CAPTURES)).

(** The state the program keeps in shape: cursor within the buffer, buffer
    and table of their declared sizes. *)
Definition well_formed (s : machine) : Prop :=
  0 <= capture_idx s <= NUM_CAPTURES /\
  length (capture_values s) = Z.to_nat NUM_CAPTURES /\
  length (num_occurances s) = Z.to_nat NUM_BUCKETS.

(** * Proofs *)

(** ** Arrays as lists *)

Lemma nth_insert_eq (l : list Z) (k : nat) (v d : Z) :
  (k < length l)%nat -> nth k (<[k := v]> l) d = v.
Proof.
  revert k; induction l as [|x l IH]; intros [|k] H; simpl in *; try lia; auto.
  apply IH; lia.
Qed.

Lemma nth_insert_ne (l : list Z) (k j : nat) (v d : Z) :
  k <> j -> nth j (<[k := v]> l) d = nth j l d.
Proof.
  revert k j; induction l as [|x l IH]; intros [|k] [|j] H; simpl; auto; congruence.
Qed.

Lemma table_sum_insert (l : list Z) (k : nat) (v : Z) :
  (k < length l)%nat -> table_sum (<[k := v]> l) = table_sum l - nth k l 0 + v.
Proof.
  revert k; induction l as [|x l IH]; intros [|k] H; simpl in *; try lia.
  unfold table_sum in *. simpl. rewrite IH by lia. lia.
Qed.

Lemma nth_le_table_sum (l : list Z) (j : nat) :
  Forall (fun x => 0 <= x) l -> 0 <= nth j l 0 <= table_sum l.
Proof.
  intros H; revert j; induction H as [|x l Hx Hl IH]; intros [|j]; simpl; try lia.
  - unfold table_sum; simpl. specialize (IH 0%nat). unfold table_sum in IH.
    destruct l; simpl in *; lia.
  - unfold table_sum in *; simpl. specialize (IH j). lia.
Qed.

Lemma nth_zero_table (j : nat) : nth j zero_table 0 = 0.
Proof.
  unfold zero_table. rewrite nth_lookup.
  destruct (replicate (Z.to_nat NUM_BUCKETS) 0 !! j) eqn:E; simpl; auto.
  apply lookup_replicate in E. tauto.
Qed.

Lemma length_zero_table : length zero_table = 100%nat.
Proof. reflexivity. Qed.

(** ** Sixteen-bit arithmetic of the loop body *)

Lemma wrap16_range z : 0 <= wrap16 z < 65536.
Proof. unfold wrap16. apply Z.mod_pos_bound. lia. Qed.

Lemma wrap16_small z : 0 <= z < 65536 -> wrap16 z = z.
Proof. unfold wrap16. intros. apply Z.mod_small. lia. Qed.

Lemma wrap16_succ_l z k : wrap16 (wrap16 (z + 1) + k) = wrap16 (z + (1 + k)).
Proof. unfold wrap16. rewrite Zplus_mod_idemp_l. f_equal. lia. Qed.

(** The guard [compare_idx < 100] holds exactly for the deltas of the
    window, and then the index is the delta minus [LOW_PERIOD]. *)
Lemma bucket_index_window (prev cur : Z) :
  in_window (wrap16 (cur - prev)) ->
  bucket_index prev cur = Some (Z.to_nat (wrap16 (cur - prev) - LOW_PERIOD)).
Proof.
  unfold in_window, bucket_index, LOW_PERIOD, NUM_BUCKETS. intros H.
  rewrite (wrap16_small (_ - _)) by lia.
  destruct (Z.ltb_spec (wrap16 (cur - prev) - 950) 100); [reflexivity | lia].
Qed.

Lemma bucket_index_outside (prev cur : Z) :
  ~ in_window (wrap16 (cur - prev)) -> bucket_index prev cur = None.
Proof.
  unfold in_window, bucket_index, LOW_PERIOD, NUM_BUCKETS. intros H.
  pose proof (wrap16_range (cur - prev)) as Hd.
  destruct (Z.ltb_spec (wrap16 (wrap16 (cur - prev) - 950)) 100) as [Hlt|]; [|reflexivity].
  exfalso. apply H.
  destruct (Z_lt_ge_dec (wrap16 (cur - prev)) 950) as [Hlo|Hhi].
  - assert (E : wrap16 (wrap16 (cur - prev) - 950) = wrap16 (cur - prev) - 950 + 65536).
    { unfold wrap16 at 1.
      symmetry. apply Z.mod_unique with (q := -1); lia. }
    lia.
  - rewrite (wrap16_small (_ - _)) in Hlt by lia. lia.
Qed.

Lemma bucket_index_lt (prev cur : Z) (k : nat) :
  bucket_index prev cur = Some k -> (k < 100)%nat.
Proof.
  unfold bucket_index.
  pose proof (wrap16_range (wrap16 (cur - prev) - LOW_PERIOD)).
  destruct (Z.ltb_spec (wrap16 (wrap16 (cur - prev) - LOW_PERIOD)) 100); [|discriminate].
  intros [= <-]. lia.
Qed.

Lemma process_pair_index (prev cur : Z) (occ : list Z) :
  process_pair prev cur occ =
  match bucket_index prev cur with
  | Some k => <[k := wrap16 (nth k occ 0 + 1)]> occ
  | None => occ
  end.
Proof.
  unfold process_pair, bucket_index.
  destruct (wrap16 (wrap16 (cur - prev) - LOW_PERIOD) <? 100); reflexivity.
Qed.

Lemma length_process_pair (prev cur : Z) (occ : list Z) :
  length (process_pair prev cur occ) = length occ.
Proof.
  rewrite process_pair_index. destruct (bucket_index prev cur); [apply length_insert | reflexivity].
Qed.

(** ** The loop of [process_values] *)

Lemma length_process_fold (caps : list Z) (l : list nat) (occ : list Z) :
  length (fold_left (process_iter caps) l occ) = length occ.
Proof.
  revert occ; induction l as [|i l IH]; intros occ; simpl; [reflexivity|].
  rewrite IH. apply length_process_pair.
Qed.

Lemma hits_cons (caps : list Z) (i : nat) (l : list nat) (j : nat) :
  hits caps (i :: l) j =
  if decide (bucket_index (nth (i - 1) caps 0) (nth i caps 0) = Some j)
  then S (hits caps l j) else hits caps l j.
Proof.
  unfold hits. rewrite filter_cons.
  destruct (decide (bucket_index (nth (i - 1) caps 0) (nth i caps 0) = Some j));
    reflexivity.
Qed.

(** Counter [j] after the iterations [l]: its old value plus the number of
    iterations that landed in bucket [j], as a [UINT16]. *)
Lemma nth_process_fold (caps : list Z) (l : list nat) (occ : list Z) (j : nat) :
  length occ = 100%nat ->
  0 <= nth j occ 0 < 65536 ->
  nth j (fold_left (process_iter caps) l occ) 0 =
  wrap16 (nth j occ 0 + Z.of_nat (hits caps l j)).
Proof.
  revert occ; induction l as [|i l IH]; intros occ Hlen Hj.
  - simpl. rewrite Z.add_0_r, wrap16_small; auto.
  - simpl fold_left. rewrite hits_cons.
    unfold process_iter at 2. rewrite process_pair_index.
    destruct (bucket_index (nth (i - 1) caps 0) (nth i caps 0)) as [k|] eqn:Ek.
    + pose proof (bucket_index_lt _ _ _ Ek) as Hk.
      destruct (decide (Some k = Some j)) as [[= ->]|Hne].
      * rewrite IH.
        -- rewrite nth_insert_eq by lia.
           rewrite wrap16_succ_l. f_equal.
           lia.
        -- rewrite length_insert; auto.
        -- rewrite nth_insert_eq by lia. apply wrap16_range.
      * assert (k <> j) by congruence.
        rewrite IH.
        -- rewrite nth_insert_ne by auto. reflexivity.
        -- rewrite length_insert; auto.
        -- rewrite nth_insert_ne by auto. auto.
    + destruct (decide (None = Some j)); [discriminate|]. apply IH; auto.
Qed.

Lemma hits_le_length (caps : list Z) (l : list nat) (j : nat) :
  (hits caps l j <= length l)%nat.
Proof. unfold hits. apply length_filter. Qed.

(** One iteration adds at most one to the sum of the table and keeps the
    counters non-negative. *)
Lemma process_pair_sum (prev cur : Z) (occ : list Z) :
  length occ = 100%nat ->
  Forall (fun x => 0 <= x) occ ->
  Forall (fun x => 0 <= x) (process_pair prev cur occ) /\
  table_sum (process_pair prev cur occ) <= table_sum occ + 1.
Proof.
  intros Hlen Hpos. rewrite process_pair_index.
  destruct (bucket_index prev cur) as [k|] eqn:Ek; [|split; [auto | lia]].
  pose proof (bucket_index_lt _ _ _ Ek) as Hk.
  pose proof (nth_le_table_sum occ k Hpos) as Hn.
  pose proof (wrap16_range (nth k occ 0 + 1)) as Hw.
  split.
  - apply Forall_insert; [auto | lia].
  - rewrite table_sum_insert by lia.
    assert (wrap16 (nth k occ 0 + 1) <= nth k occ 0 + 1); [|lia].
    unfold wrap16. apply Z.mod_le; lia.
Qed.

Lemma process_fold_sum (caps : list Z) (l : list nat) (occ : list Z) :
  length occ = 100%nat ->
  Forall (fun x => 0 <= x) occ ->
  Forall (fun x => 0 <= x) (fold_left (process_iter caps) l occ) /\
  table_sum (fold_left (process_iter caps) l occ) <= table_sum occ + Z.of_nat (length l).
Proof.
  revert occ; induction l as [|i l IH]; intros occ Hlen Hpos.
  - simpl. split; [auto | lia].
  - simpl fold_left.
    destruct (process_pair_sum (nth (i - 1) caps 0) (nth i caps 0) occ Hlen Hpos) as [Hp Hs].
    destruct (IH (process_iter caps occ i)) as [Hp' Hs'].
    + unfold process_iter. rewrite length_process_pair; auto.
    + exact Hp.
    + split; [exact Hp'|]. unfold process_iter in *.
      change (length (i :: l)) with (S (length l)). lia.
Qed.

Lemma Forall_zero_table : Forall (fun x => 0 <= x) zero_table.
Proof. unfold zero_table. apply Forall_replicate. lia. Qed.

Lemma table_sum_zero_table : table_sum zero_table = 0.
Proof. reflexivity. Qed.

Lemma length_loop_indices : length (loop_indices (Z.to_nat NUM_CAPTURES)) = 999%nat.
Proof. reflexivity. Qed.

Lemma wrap16_succ_neq (x : Z) : wrap16 (x + 1) <> x.
Proof.
  unfold wrap16. intros H.
  assert (0 <= x < 65536) by (rewrite <- H; apply Z.mod_pos_bound; lia).
  destruct (Z.eq_dec x 65535) as [->|Hne]; [discriminate H|].
  rewrite Z.mod_small in H by lia. lia.
Qed.

Lemma incremented_at_changes (occ occ' : list Z) (k : nat) :
  incremented_at occ occ' k -> nth k occ' 0 <> nth k occ 0.
Proof. intros (_ & _ & Hk & _). rewrite Hk. apply wrap16_succ_neq. Qed.

Lemma process_values_table (s : machine) :
  num_occurances (exec process_values s) =
  process_loop (Z.to_nat NUM_CAPTURES) (capture_values s) (num_occurances s).
Proof. reflexivity. Qed.

Lemma process_values_captures (s : machine) :
  capture_values (exec process_values s) = capture_values s.
Proof. reflexivity. Qed.

Lemma init_buckets_table (s : machine) :
  num_occurances (exec init_buckets s) = zero_table.
Proof. reflexivity. Qed.

(** Each counter of a run from the all-zero table is its number of hits. *)
Lemma nth_process_loop_zero (caps : list Z) (j : nat) :
  nth j (process_loop (Z.to_nat NUM_CAPTURES) caps zero_table) 0 =
  Z.of_nat (hits caps (loop_indices (Z.to_nat NUM_CAPTURES)) j).
Proof.
  pose proof (hits_le_length caps (loop_indices (Z.to_nat NUM_CAPTURES)) j) as Hh.
  rewrite length_loop_indices in Hh.
  unfold process_loop. rewrite nth_process_fold.
  - rewrite nth_zero_table. apply wrap16_small. lia.
  - apply length_zero_table.
  - rewrite nth_zero_table. lia.
Qed.

Lemma classic_window (delta : Z) : in_window delta \/ ~ in_window delta.
Proof.
  unfold in_window.
  destruct (Z_le_gt_dec LOW_PERIOD delta), (Z_lt_ge_dec delta (LOW_PERIOD + NUM_BUCKETS));
    [left | right | right | right]; lia.
Qed.

(** ** The claims about the histogram *)

(** C1: the worked example.  With [LOW_PERIOD = 950] and 100 buckets, the
    samples 1000, 2000, 2976, 5000 have the deltas 1000, 976, 2024 and the
    bucket indices 50, 26 and none; one run from the all-zero table leaves
    a one in buckets 50 and 26, zero everywhere else, and a total of 2.  The
    same table results when the four samples head a full buffer of 1000
    captures whose remaining slots repeat the last sample. *)
Theorem C1_bucketing_example :
  LOW_PERIOD = 950 /\ NUM_BUCKETS = 100 /\
  map (fun i => wrap16 (nth i example_samples 0 - nth (i - 1) example_samples 0))
      (loop_indices 4) = [1000; 976; 2024] /\
  map (fun i => bucket_index (nth (i - 1) example_samples 0) (nth i example_samples 0))
      (loop_indices 4) = [Some 50%nat; Some 26%nat; None] /\
  let tbl := process_loop 4 example_samples zero_table in
  tbl = <[50%nat := 1]> (<[26%nat := 1]> zero_table) /\
  nth 50 tbl 0 = 1 /\ nth 26 tbl 0 = 1 /\
  (forall j, j <> 50%nat -> j <> 26%nat -> nth j tbl 0 = 0) /\
  table_sum tbl = 2 /\
  num_occurances (exec process_values (armed example_snapshot zero_table)) = tbl.
Proof.
  do 4 (split; [reflexivity|]).
  intros tbl.
  assert (Htbl : tbl = <[50%nat := 1]> (<[26%nat := 1]> zero_table))
    by (vm_compute; reflexivity).
  split; [exact Htbl|].
  do 2 (split; [vm_compute; reflexivity|]).
  split.
  { intros j H50 H26. rewrite Htbl, !nth_insert_ne by auto. apply nth_zero_table. }
  split; vm_compute; reflexivity.
Qed.

Lemma C1_bucketing_example_witness :
  0%nat <> 50%nat /\ 0%nat <> 26%nat /\
  nth 0 (process_loop 4 example_samples zero_table) 0 = 0.
Proof.
  assert (H50 : 0%nat <> 50%nat) by discriminate.
  assert (H26 : 0%nat <> 26%nat) by discriminate.
  split; [exact H50|]. split; [exact H26|].
  destruct C1_bucketing_example as (_ & _ & _ & _ & _ & _ & _ & Hother & _).
  exact (Hother 0%nat H50 H26).
Defined.

(** The loop body on one pair: it increments exactly one counter if and
    only if the 16-bit wrapping difference lies in the window, the counter
    at the difference minus [LOW_PERIOD]; otherwise the table is left as it
    is. *)
Lemma process_pair_window (prev cur : Z) (occ : list Z) :
  length occ = Z.to_nat NUM_BUCKETS ->
  let delta := wrap16 (cur - prev) in
  let occ' := process_pair prev cur occ in
  ((exists k, incremented_at occ occ' k) <-> in_window delta) /\
  (forall k k', incremented_at occ occ' k -> incremented_at occ occ' k' -> k = k') /\
  (in_window delta -> incremented_at occ occ' (Z.to_nat (delta - LOW_PERIOD))) /\
  (~ in_window delta -> occ' = occ) /\
  (delta < LOW_PERIOD -> occ' = occ) /\
  (forall caps i,
      process_iter caps occ i = process_pair (nth (i - 1) caps 0) (nth i caps 0) occ).
Proof.
  intros Hlen delta occ'. change (Z.to_nat NUM_BUCKETS) with 100%nat in Hlen.
  assert (Hin : in_window delta ->
                incremented_at occ occ' (Z.to_nat (delta - LOW_PERIOD))).
  { intros Hw. subst occ'. rewrite process_pair_index.
    pose proof (bucket_index_window prev cur Hw) as E. rewrite E.
    apply bucket_index_lt in E. fold delta in E |- *.
    repeat split.
    - apply length_insert.
    - lia.
    - apply nth_insert_eq. lia.
    - intros j Hj. apply nth_insert_ne. auto. }
  assert (Hout : ~ in_window delta -> occ' = occ).
  { intros Hw. subst occ'. rewrite process_pair_index.
    rewrite (bucket_index_outside prev cur Hw). reflexivity. }
  split; [split|split; [|split; [|split; [|split]]]].
  - intros [k Hk]. destruct (classic_window delta) as [Hw|Hw]; [exact Hw|].
    exfalso. apply (incremented_at_changes _ _ _ Hk). rewrite (Hout Hw). reflexivity.
  - intros Hw. eexists. apply Hin, Hw.
  - intros k k' Hk Hk'. destruct (decide (k = k')) as [|Hne]; [assumption|].
    exfalso. apply (incremented_at_changes _ _ _ Hk).
    destruct Hk' as (_ & _ & _ & Hoth). apply Hoth. auto.
  - exact Hin.
  - exact Hout.
  - intros Hlow. apply Hout. unfold in_window. lia.
  - reflexivity.
Qed.

(** The state of the loop after one more iteration. *)
Lemma process_prefix_step (k : nat) (caps occ : list Z) :
  (k < 999)%nat ->
  process_prefix (S k) caps occ = process_iter caps (process_prefix k caps occ) (S k).
Proof.
  intros Hk. unfold process_prefix, loop_indices.
  change (Z.to_nat NUM_CAPTURES - 1)%nat with 999%nat.
  rewrite !take_seq, !Nat.min_l by lia.
  rewrite seq_S, fold_left_app. reflexivity.
Qed.

Lemma length_process_prefix (k : nat) (caps occ : list Z) :
  length (process_prefix k caps occ) = length occ.
Proof. unfold process_prefix. apply length_process_fold. Qed.

Lemma filter_ext_elem (P Q : nat -> Prop) `{forall i, Decision (P i)}
      `{forall i, Decision (Q i)} (l : list nat) :
  (forall i, i ∈ l -> (P i <-> Q i)) -> filter P l = filter Q l.
Proof.
  induction l as [|x l IH]; intros Hext; [reflexivity|].
  rewrite !filter_cons.
  assert (Hx : P x <-> Q x) by (apply Hext; left).
  rewrite IH by (intros i Hi; apply Hext; right; exact Hi).
  destruct (decide (P x)), (decide (Q x)); tauto.
Qed.

(** The hits of bucket [j] are the pairs that are [j + LOW_PERIOD] ticks
    apart. *)
Lemma hits_interval_count (caps : list Z) (j : nat) :
  (j < 100)%nat ->
  hits caps (loop_indices (Z.to_nat NUM_CAPTURES)) j = interval_count caps j.
Proof.
  intros Hj. unfold hits, interval_count. f_equal.
  apply filter_ext_elem. intros i _. split.
  - intros E. destruct (classic_window (wrap16 (nth i caps 0 - nth (i - 1) caps 0))) as [Hw|Hw].
    + rewrite (bucket_index_window _ _ Hw) in E. injection E as E.
      unfold in_window in Hw. lia.
    + rewrite (bucket_index_outside _ _ Hw) in E. discriminate E.
  - intros Hd. rewrite bucket_index_window; rewrite Hd.
    + f_equal. lia.
    + unfold in_window, NUM_BUCKETS. lia.
Qed.

(** C5: the loop of [process_values] visits the adjacent pairs
    [(capture_values[i-1], capture_values[i])] for [i] from 1 to 999, and
    its iteration [i] increments exactly one bucket of the table if and only
    if the 16-bit wrapping difference of that pair lies in
    [LOW_PERIOD, LOW_PERIOD + NUM_BUCKETS); the bucket is then the one at
    the difference minus [LOW_PERIOD]; otherwise, and in particular for
    every difference below [LOW_PERIOD], the iteration leaves the table as
    it is.  In the table that [process_values] leaves, every counter has
    grown (as a [UINT16]) by the number of pairs with its period. *)
Theorem C5_pair_window (s : machine) :
  length (num_occurances s) = Z.to_nat NUM_BUCKETS ->
  let caps := capture_values s in
  let occ := num_occurances s in
  let state := fun k => process_prefix k caps occ in
  state 0%nat = occ /\
  num_occurances (exec process_values s) = state 999%nat /\
  (forall i, (1 <= i < 1000)%nat ->
     let delta := wrap16 (nth i caps 0 - nth (i - 1) caps 0) in
     let before := state (i - 1)%nat in
     let after := state i in
     ((exists b, incremented_at before after b) <-> in_window delta) /\
     (forall b b', incremented_at before after b -> incremented_at before after b' -> b = b') /\
     (in_window delta -> incremented_at before after (Z.to_nat (delta - LOW_PERIOD))) /\
     (~ in_window delta -> after = before) /\
     (delta < LOW_PERIOD -> after = before)) /\
  (forall j, (j < 100)%nat -> 0 <= nth j occ 0 < 65536 ->
     nth j (num_occurances (exec process_values s)) 0 =
     wrap16 (nth j occ 0 + Z.of_nat (interval_count caps j))) /\
  (forall prev cur t, length t = Z.to_nat NUM_BUCKETS ->
     let delta := wrap16 (cur - prev) in
     let t' := process_pair prev cur t in
     ((exists b, incremented_at t t' b) <-> in_window delta) /\
     (in_window delta -> incremented_at t t' (Z.to_nat (delta - LOW_PERIOD))) /\
     (~ in_window delta -> t' = t)).
Proof.
  intros Hlen caps occ state.
  split; [reflexivity|]. split; [reflexivity|]. split; [|split].
  - intros i Hi delta before after.
    assert (Hstep : after = process_pair (nth (i - 1) caps 0) (nth i caps 0) before).
    { subst after before state. cbv beta.
      destruct i as [|k]; [lia|].
      replace (S k - 1)%nat with k by lia.
      rewrite process_prefix_step by lia. unfold process_iter.
      replace (S k - 1)%nat with k by lia. reflexivity. }
    assert (Hlb : length before = Z.to_nat NUM_BUCKETS).
    { subst before state. cbv beta. rewrite length_process_prefix. exact Hlen. }
    destruct (process_pair_window (nth (i - 1) caps 0) (nth i caps 0) before Hlb)
      as (Hiff & Huniq & Hin & Hout & Hlow & _).
    rewrite Hstep. cbv zeta in Hiff, Huniq, Hin, Hout, Hlow. fold delta in Hiff, Hin, Hout, Hlow.
    split; [exact Hiff|]. split; [exact Huniq|]. split; [exact Hin|].
    split; [exact Hout | exact Hlow].
  - intros j Hj Hocc. rewrite process_values_table. unfold process_loop.
    rewrite nth_process_fold by (auto; exact Hocc).
    rewrite hits_interval_count by exact Hj. reflexivity.
  - intros prev cur t Ht delta t'.
    destruct (process_pair_window prev cur t Ht) as (Hiff & _ & Hin & Hout & _).
    split; [exact Hiff|]. split; [exact Hin | exact Hout].
Qed.

Lemma C5_pair_window_witness :
  let s := armed example_snapshot zero_table in
  length (num_occurances s) = Z.to_nat NUM_BUCKETS /\
  in_window (wrap16 (nth 1 example_snapshot 0 - nth 0 example_snapshot 0)) /\
  incremented_at (process_prefix 0 example_snapshot zero_table)
                 (process_prefix 1 example_snapshot zero_table) 50 /\
  nth 50 (num_occurances (exec process_values s)) 0 = 1.
Proof.
  intros s.
  assert (Hlen : length (num_occurances s) = Z.to_nat NUM_BUCKETS) by reflexivity.
  assert (Hw : in_window (wrap16 (nth 1 example_snapshot 0 - nth 0 example_snapshot 0))).
  { change (wrap16 (nth 1 example_snapshot 0 - nth 0 example_snapshot 0)) with 1000.
    unfold in_window, LOW_PERIOD, NUM_BUCKETS. lia. }
  split; [exact Hlen|]. split; [exact Hw|].
  destruct (C5_pair_window s Hlen) as (_ & _ & Hstep & Hsum & _).
  split.
  - assert (H1 : (1 <= 1 < 1000)%nat) by lia.
    destruct (Hstep 1%nat H1) as (_ & _ & Hin & _).
    exact (Hin Hw).
  - assert (H50 : (50 < 100)%nat) by lia.
    assert (Hz : 0 <= nth 50 (num_occurances s) 0 < 65536)
      by (change (nth 50 (num_occurances s) 0) with 0; lia).
    rewrite (Hsum 50%nat H50 Hz). vm_compute. reflexivity.
Defined.

(** C7: on any machine state, after [init_buckets] has zeroed the table, a
    second run of [process_values] on the same capture buffer leaves every
    bucket at exactly twice the count the first run produced. *)
Theorem C7_second_run_doubles (s : machine) :
  let once := exec process_values (exec init_buckets s) in
  let twice := exec process_values once in
  capture_values once = capture_values s /\
  capture_values twice = capture_values s /\
  length (num_occurances twice) = Z.to_nat NUM_BUCKETS /\
  forall j, nth j (num_occurances twice) 0 = 2 * nth j (num_occurances once) 0.
Proof.
  intros once twice.
  split; [reflexivity|]. split; [reflexivity|].
  assert (Hlen : length (num_occurances once) = 100%nat).
  { subst once. rewrite process_values_table. unfold process_loop.
    rewrite length_process_fold. reflexivity. }
  split.
  { subst twice. rewrite process_values_table. unfold process_loop.
    rewrite length_process_fold. exact Hlen. }
  intros j.
  assert (Honce : nth j (num_occurances once) 0 =
                  Z.of_nat (hits (capture_values s) (loop_indices (Z.to_nat NUM_CAPTURES)) j)).
  { subst once. rewrite process_values_table, init_buckets_table.
    apply nth_process_loop_zero. }
  pose proof (hits_le_length (capture_values s) (loop_indices (Z.to_nat NUM_CAPTURES)) j) as Hh.
  rewrite length_loop_indices in Hh.
  subst twice. rewrite process_values_table.
  change (capture_values once) with (capture_values s).
  unfold process_loop. rewrite nth_process_fold by (auto; lia).
  rewrite Honce, wrap16_small by lia. lia.
Qed.

(** C10: the loop of [process_values] runs [NUM_CAPTURES - 1 = 999] times,
    one delta per iteration; started on the all-zero table, the counts sum
    to at most 999, and at every point of the loop every counter is at most
    999, so that its 16-bit increment does not wrap. *)
Theorem C10_no_counter_overflow (caps : list Z) :
  Z.of_nat (length (loop_indices (Z.to_nat NUM_CAPTURES))) = NUM_CAPTURES - 1 /\
  NUM_CAPTURES - 1 = 999 /\
  num_occurances (exec process_values (armed caps zero_table)) =
    process_prefix 999 caps zero_table /\
  0 <= table_sum (num_occurances (exec process_values (armed caps zero_table))) <= 999 /\
  forall k j,
    0 <= nth j (process_prefix k caps zero_table) 0 <= 999 /\
    wrap16 (nth j (process_prefix k caps zero_table) 0 + 1) =
      nth j (process_prefix k caps zero_table) 0 + 1.
Proof.
  split; [reflexivity|]. split; [reflexivity|]. split; [reflexivity|].
  assert (Hpre : forall k,
             Forall (fun x => 0 <= x) (process_prefix k caps zero_table) /\
             table_sum (process_prefix k caps zero_table) <= 999).
  { intros k. unfold process_prefix.
    destruct (process_fold_sum caps (take k (loop_indices (Z.to_nat NUM_CAPTURES)))
                zero_table length_zero_table Forall_zero_table) as [Hp Hs].
    split; [exact Hp|].
    rewrite table_sum_zero_table in Hs.
    rewrite length_take, length_loop_indices in Hs. lia. }
  split.
  - rewrite process_values_table.
    change (process_loop (Z.to_nat NUM_CAPTURES) (capture_values (armed caps zero_table))
              (num_occurances (armed caps zero_table)))
      with (process_prefix 999 caps zero_table).
    destruct (Hpre 999%nat) as [Hp Hs].
    pose proof (nth_le_table_sum _ 0%nat Hp). lia.
  - intros k j. destruct (Hpre k) as [Hp Hs].
    pose proof (nth_le_table_sum _ j Hp) as Hn.
    split; [lia|]. apply wrap16_small. lia.
Qed.

(** ** Running the C statements *)

Ltac run_c :=
  unfold exec, isr_invocation, capture_edge, OC1_isr, latch_edge, pre_capture,
    init_buckets, GetChar, printf, store_capture, set_capture_idx, set_TIE_C1I,
    set_finished_capturing, write_TFLG1, log, modify, read,
    mbind, M_bind, mret, M_ret;
  cbn [fst snd with_TFLG1 with_TC1 with_capture_idx with_capture_values
       with_trace with_TIE_C1I with_finished_capturing with_num_occurances
       num_occurances capture_values capture_idx finished_capturing
       TC1 TIE_C1I TFLG1 trace].

Ltac tidy_trace := rewrite <- ?app_assoc; cbn [app].

Lemma effects_app {A} (c : M A) (s : machine) (evs : list event) :
  trace (exec c s) = trace s ++ evs -> effects c s = evs.
Proof. unfold effects. intros ->. apply drop_app_length. Qed.

(** The three paths through the ISR. *)
Lemma OC1_isr_append (s : machine) :
  capture_idx s < NUM_CAPTURES ->
  exec OC1_isr s =
  Machine (num_occurances s)
          (<[Z.to_nat (capture_idx s) := wrap16 (TC1 s)]> (capture_values s))
          (wrap16 (capture_idx s + 1)) (finished_capturing s) (TC1 s) (TIE_C1I s)
          (Z.ldiff (TFLG1 s) TFLG1_C1F_MASK)
          (trace s ++ [EvStore (capture_idx s) (wrap16 (TC1 s));
                       EvCursor (wrap16 (capture_idx s + 1));
                       EvAck TFLG1_C1F_MASK]).
Proof.
  intros H. run_c.
  destruct (Z.ltb_spec (capture_idx s) NUM_CAPTURES); [|lia].
  run_c. unfold with_trace; cbn. tidy_trace. reflexivity.
Qed.

Lemma OC1_isr_full (s : machine) :
  capture_idx s = NUM_CAPTURES ->
  exec OC1_isr s =
  Machine (num_occurances s) (capture_values s) (capture_idx s) 1 (TC1 s) 0
          (Z.ldiff (TFLG1 s) TFLG1_C1F_MASK)
          (trace s ++ [EvIrqEnable 0; EvFinished 1; EvAck TFLG1_C1F_MASK]).
Proof.
  intros H. run_c. rewrite H. cbn [Z.ltb Z.eqb Z.compare NUM_CAPTURES Pos.compare Pos.compare_cont Pos.eqb].
  run_c. unfold with_trace; cbn. tidy_trace. rewrite H. reflexivity.
Qed.

Lemma OC1_isr_beyond (s : machine) :
  NUM_CAPTURES < capture_idx s ->
  exec OC1_isr s =
  Machine (num_occurances s) (capture_values s) (capture_idx s)
          (finished_capturing s) (TC1 s) (TIE_C1I s)
          (Z.ldiff (TFLG1 s) TFLG1_C1F_MASK)
          (trace s ++ [EvAck TFLG1_C1F_MASK]).
Proof.
  intros H. run_c.
  destruct (Z.ltb_spec (capture_idx s) NUM_CAPTURES); [lia|].
  destruct (Z.eqb_spec (capture_idx s) NUM_CAPTURES); [lia|].
  run_c. reflexivity.
Qed.

Lemma isr_invocation_latch (tc : Z) (s : machine) :
  exec (isr_invocation tc) s = exec OC1_isr (exec (latch_edge tc) s).
Proof. reflexivity. Qed.

Lemma capture_edge_enabled (tc : Z) (s : machine) :
  TIE_C1I s <> 0 -> exec (capture_edge tc) s = exec (isr_invocation tc) s.
Proof.
  intros H. run_c. destruct (Z.eqb_spec (TIE_C1I s) 0); [contradiction|]. reflexivity.
Qed.

Lemma capture_edge_disabled (tc : Z) (s : machine) :
  TIE_C1I s = 0 -> exec (capture_edge tc) s = exec (latch_edge tc) s.
Proof. intros H. run_c. rewrite H. reflexivity. Qed.

Lemma run_isrs_snoc (tcs : list Z) (tc : Z) (s : machine) :
  run_isrs (tcs ++ [tc]) s = exec (isr_invocation tc) (run_isrs tcs s).
Proof. unfold run_isrs. rewrite fold_left_app. reflexivity. Qed.

Lemma run_edges_snoc (tcs : list Z) (tc : Z) (s : machine) :
  run_edges (tcs ++ [tc]) s = exec (capture_edge tc) (run_edges tcs s).
Proof. unfold run_edges. rewrite fold_left_app. reflexivity. Qed.

Lemma count_events_app (p : event -> bool) (tr tr' : list event) :
  count_events p (tr ++ tr') = (count_events p tr + count_events p tr')%nat.
Proof. unfold count_events. rewrite filter_app, length_app. reflexivity. Qed.

(** ** Sequences of ISR invocations from a reset state *)

Lemma events_since_app (s s' : machine) (evs : list event) :
  trace s' = trace s ++ evs -> events_since s s' = evs.
Proof. unfold events_since. intros ->. apply drop_app_length. Qed.

Lemma forallb_snoc_events (p : event -> bool) (tr evs : list event) :
  forallb p tr = true -> forallb p evs = true -> forallb p (tr ++ evs) = true.
Proof. intros H1 H2. rewrite forallb_app, H1, H2. reflexivity. Qed.

(** After [k] invocations the cursor is [min k NUM_CAPTURES]; the flag and
    the enable bit change at invocation [NUM_CAPTURES + 1] and at no other;
    the buffer has been written [min k NUM_CAPTURES] times, always inside
    its bounds. *)
Lemma run_isrs_state (s : machine) (tcs : list Z) :
  capture_idx s = 0 -> finished_capturing s = 0 ->
  let k := Z.of_nat (length tcs) in
  let s' := run_isrs tcs s in
  capture_idx s' = Z.min k NUM_CAPTURES /\
  finished_capturing s' = (if k <=? NUM_CAPTURES then 0 else 1) /\
  TIE_C1I s' = (if k <=? NUM_CAPTURES then TIE_C1I s else 0) /\
  exists evs,
    trace s' = trace s ++ evs /\
    forallb is_store_in_bounds evs = true /\
    Z.of_nat (count_events is_store evs) = Z.min k NUM_CAPTURES.
Proof.
  intros Hidx Hfin. induction tcs as [|tc tcs IH] using rev_ind.
  - cbv zeta. change (Z.of_nat (length [])) with 0. change (run_isrs [] s) with s.
    change (0 <=? NUM_CAPTURES) with true. cbv iota.
    rewrite Hidx, Hfin. unfold NUM_CAPTURES. repeat split; auto; try lia.
    exists []. rewrite app_nil_r. repeat split.
  - cbv zeta in *. rewrite run_isrs_snoc, length_app. cbn [length].
    destruct IH as (Ic & If & Ie & evs & It & Ib & In).
    set (s1 := run_isrs tcs s) in *.
    rewrite isr_invocation_latch.
    set (s2 := exec (latch_edge tc) s1).
    assert (Hc2 : capture_idx s2 = capture_idx s1) by reflexivity.
    assert (Hf2 : finished_capturing s2 = finished_capturing s1) by reflexivity.
    assert (He2 : TIE_C1I s2 = TIE_C1I s1) by reflexivity.
    assert (Ht2 : trace s2 = trace s1) by reflexivity.
    unfold NUM_CAPTURES in *.
    destruct (Z_lt_ge_dec (Z.of_nat (length tcs)) 1000) as [Hlt|Hge].
    + rewrite OC1_isr_append by (unfold NUM_CAPTURES; lia).
      cbn [capture_idx finished_capturing TIE_C1I trace].
      rewrite Hc2, Hf2, He2, Ht2, Ic, If, Ie, It.
      rewrite Z.min_l by lia.
      destruct (Z.leb_spec (Z.of_nat (length tcs)) 1000); [|lia].
      destruct (Z.leb_spec (Z.of_nat (length tcs + 1)) 1000); [|lia].
      rewrite wrap16_small by lia.
      repeat split; auto; try lia.
      eexists. split; [symmetry; apply app_assoc|]. split.
      * apply forallb_snoc_events; [exact Ib|].
        cbn [forallb is_store_in_bounds]. unfold NUM_CAPTURES.
        destruct (Z.leb_spec 0 (Z.of_nat (length tcs))); [|lia].
        destruct (Z.ltb_spec (Z.of_nat (length tcs)) 1000); [|lia]. reflexivity.
      * rewrite count_events_app. change (count_events is_store [_; _; _]) with 1%nat. lia.
    + rewrite OC1_isr_full by (unfold NUM_CAPTURES; lia).
      cbn [capture_idx finished_capturing TIE_C1I trace].
      rewrite Hc2, Ht2, Ic, It.
      destruct (Z.leb_spec (Z.of_nat (length tcs + 1)) 1000); [lia|].
      repeat split; auto; try lia.
      eexists. split; [symmetry; apply app_assoc|]. split.
      * apply forallb_snoc_events; [exact Ib|]. reflexivity.
      * rewrite count_events_app. change (count_events is_store [_; _; _]) with 0%nat. lia.
Qed.

(** The same for edges at the pin, where the ISR runs only while the
    interrupt is enabled: completion is triggered at edge
    [NUM_CAPTURES + 1] and the ISR never runs again. *)
Lemma run_edges_state (s : machine) (tcs : list Z) :
  capture_idx s = 0 -> finished_capturing s = 0 -> TIE_C1I s = 1 ->
  let k := Z.of_nat (length tcs) in
  let s' := run_edges tcs s in
  capture_idx s' = Z.min k NUM_CAPTURES /\
  finished_capturing s' = (if k <=? NUM_CAPTURES then 0 else 1) /\
  TIE_C1I s' = (if k <=? NUM_CAPTURES then 1 else 0) /\
  exists evs,
    trace s' = trace s ++ evs /\
    Z.of_nat (count_events is_completion evs) = (if k <=? NUM_CAPTURES then 0 else 1) /\
    Z.of_nat (count_events is_irq_disable evs) = (if k <=? NUM_CAPTURES then 0 else 1) /\
    Z.of_nat (count_events is_store evs) = Z.min k NUM_CAPTURES.
Proof.
  intros Hidx Hfin Hen. induction tcs as [|tc tcs IH] using rev_ind.
  - cbv zeta. change (Z.of_nat (length [])) with 0. change (run_edges [] s) with s.
    change (0 <=? NUM_CAPTURES) with true. cbv iota.
    rewrite Hidx, Hfin, Hen. unfold NUM_CAPTURES. repeat split; auto; try lia.
    exists []. rewrite app_nil_r. repeat split.
  - cbv zeta in *. rewrite run_edges_snoc, length_app. cbn [length].
    destruct IH as (Ic & If & Ie & evs & It & In & Id & Is).
    set (s1 := run_edges tcs s) in *.
    unfold NUM_CAPTURES in *.
    destruct (Z.leb_spec (Z.of_nat (length tcs)) 1000) as [Hle|Hgt].
    + rewrite capture_edge_enabled by (rewrite Ie; discriminate).
      rewrite isr_invocation_latch.
      set (s2 := exec (latch_edge tc) s1).
      assert (Hc2 : capture_idx s2 = capture_idx s1) by reflexivity.
      assert (Hf2 : finished_capturing s2 = finished_capturing s1) by reflexivity.
      assert (He2 : TIE_C1I s2 = TIE_C1I s1) by reflexivity.
      assert (Ht2 : trace s2 = trace s1) by reflexivity.
      destruct (Z_lt_ge_dec (Z.of_nat (length tcs)) 1000) as [Hlt|Hge].
      * rewrite OC1_isr_append by (unfold NUM_CAPTURES; lia).
        cbn [capture_idx finished_capturing TIE_C1I trace].
        rewrite Hc2, Hf2, He2, Ht2, Ic, If, Ie, It.
        rewrite Z.min_l by lia.
        destruct (Z.leb_spec (Z.of_nat (length tcs + 1)) 1000); [|lia].
        rewrite wrap16_small by lia.
        repeat split; auto; try lia.
        eexists. split; [symmetry; apply app_assoc|].
        rewrite !count_events_app.
        change (count_events is_store [_; _; _]) with 1%nat.
        change (count_events is_completion [_; _; _]) with 0%nat.
        change (count_events is_irq_disable [_; _; _]) with 0%nat.
        repeat split; lia.
      * rewrite OC1_isr_full by (unfold NUM_CAPTURES; lia).
        cbn [capture_idx finished_capturing TIE_C1I trace].
        rewrite Hc2, Ht2, Ic, It.
        destruct (Z.leb_spec (Z.of_nat (length tcs + 1)) 1000); [lia|].
        repeat split; auto; try lia.
        eexists. split; [symmetry; apply app_assoc|].
        rewrite !count_events_app.
        change (count_events is_store [_; _; _]) with 0%nat.
        change (count_events is_completion [_; _; _]) with 1%nat.
        change (count_events is_irq_disable [_; _; _]) with 1%nat.
        repeat split; lia.
    + rewrite capture_edge_disabled by exact Ie.
      set (s2 := exec (latch_edge tc) s1).
      change (capture_idx s2) with (capture_idx s1).
      change (finished_capturing s2) with (finished_capturing s1).
      change (TIE_C1I s2) with (TIE_C1I s1).
      change (trace s2) with (trace s1).
      destruct (Z.leb_spec (Z.of_nat (length tcs + 1)) 1000); [lia|].
      repeat split; auto; try lia.
      exists evs. repeat split; auto; lia.
Qed.

(** Up to and including the edge that triggers completion, every edge runs
    the ISR: edges and bare ISR invocations are the same thing. *)
Lemma run_edges_run_isrs (s : machine) (tcs : list Z) :
  capture_idx s = 0 -> finished_capturing s = 0 -> TIE_C1I s = 1 ->
  Z.of_nat (length tcs) <= NUM_CAPTURES + 1 ->
  run_edges tcs s = run_isrs tcs s.
Proof.
  intros Hidx Hfin Hen. induction tcs as [|tc tcs IH] using rev_ind; [reflexivity|].
  rewrite length_app. cbn [length]. intros Hlen.
  rewrite run_edges_snoc, run_isrs_snoc, <- IH by lia.
  apply capture_edge_enabled.
  destruct (run_edges_state s tcs Hidx Hfin Hen) as (_ & _ & He & _).
  rewrite He. destruct (Z.leb_spec (Z.of_nat (length tcs)) NUM_CAPTURES); [discriminate|lia].
Qed.

(** ** The claims about the capture ISR *)

(** C2: from a reset, armed state (cursor 0, flag clear, interrupt enabled)
    and for every sequence of ISR invocations: the cursor stays within
    [0, NUM_CAPTURES] and no invocation lowers it; every store into
    [capture_values] is at an index below [NUM_CAPTURES], and there are at
    most [NUM_CAPTURES] of them; the cursor equals the capacity exactly from
    the [NUM_CAPTURES]-th invocation on, so the first invocation to find it
    there is number [NUM_CAPTURES + 1]; that invocation stores nothing, sets
    the flag and disables the interrupt source.  The flag and the enable bit
    change at that invocation only, and over any sequence of edges (the ISR
    running only while enabled) completion is triggered exactly once, when
    more than [NUM_CAPTURES] edges arrive, and not at all before. *)
Theorem C2_capture_bounds (s : machine) (tcs : list Z) :
  capture_idx s = 0 -> finished_capturing s = 0 -> TIE_C1I s = 1 ->
  let k := Z.of_nat (length tcs) in
  let s' := run_isrs tcs s in
  let e := run_edges tcs s in
  0 <= capture_idx s' <= NUM_CAPTURES /\
  (forall tc, capture_idx s' <= capture_idx (exec (isr_invocation tc) s')) /\
  forallb is_store_in_bounds (events_since s s') = true /\
  Z.of_nat (count_events is_store (events_since s s')) <= NUM_CAPTURES /\
  (capture_idx s' = NUM_CAPTURES <-> NUM_CAPTURES <= k) /\
  (k = NUM_CAPTURES -> forall tc,
      let s'' := exec (isr_invocation tc) s' in
      finished_capturing s' = 0 /\ TIE_C1I s' = 1 /\
      effects (isr_invocation tc) s' =
        [EvIrqEnable 0; EvFinished 1; EvAck TFLG1_C1F_MASK] /\
      capture_values s'' = capture_values s' /\
      capture_idx s'' = NUM_CAPTURES /\
      finished_capturing s'' = 1 /\ TIE_C1I s'' = 0) /\
  finished_capturing s' = (if k <=? NUM_CAPTURES then 0 else 1) /\
  TIE_C1I s' = (if k <=? NUM_CAPTURES then 1 else 0) /\
  count_events is_completion (events_since s e) =
    (if k <=? NUM_CAPTURES then 0%nat else 1%nat) /\
  count_events is_irq_disable (events_since s e) =
    (if k <=? NUM_CAPTURES then 0%nat else 1%nat) /\
  (k <= NUM_CAPTURES + 1 -> e = s').
Proof.
  intros Hidx Hfin Hen k s' e.
  destruct (run_isrs_state s tcs Hidx Hfin) as (Hc & Hf & He & evs & Ht & Hb & Hn).
  fold k s' in Hc, Hf, He, Ht, Hn.
  rewrite Hen in He. rewrite (events_since_app s s' evs Ht).
  split; [unfold NUM_CAPTURES in *; lia|].
  split.
  { intros tc.
    destruct (run_isrs_state s (tcs ++ [tc]) Hidx Hfin) as (Hc' & _).
    rewrite run_isrs_snoc, length_app in Hc'. cbn [length] in Hc'.
    fold s' in Hc'. rewrite Hc', Hc. unfold k. lia. }
  split; [exact Hb|].
  split; [unfold NUM_CAPTURES in *; lia|].
  split; [rewrite Hc; unfold NUM_CAPTURES; lia|].
  split.
  { intros Hk tc s''.
    assert (Hfull : capture_idx (exec (latch_edge tc) s') = NUM_CAPTURES).
    { change (capture_idx (exec (latch_edge tc) s')) with (capture_idx s').
      rewrite Hc, Hk. reflexivity. }
    rewrite Hf, He, Hk. change (NUM_CAPTURES <=? NUM_CAPTURES) with true. cbv iota.
    split; [reflexivity|]. split; [reflexivity|].
    split.
    { apply effects_app. rewrite isr_invocation_latch, OC1_isr_full by exact Hfull.
      reflexivity. }
    subst s''. rewrite isr_invocation_latch, OC1_isr_full by exact Hfull.
    cbn [capture_values capture_idx finished_capturing TIE_C1I].
    repeat split. exact Hfull. }
  split; [exact Hf|]. split; [exact He|].
  destruct (run_edges_state s tcs Hidx Hfin Hen) as (_ & _ & _ & evs' & Ht' & Hcomp & Hdis & _).
  fold k e in Ht', Hcomp, Hdis. rewrite (events_since_app s e evs' Ht').
  split; [destruct (k <=? NUM_CAPTURES); lia|].
  split; [destruct (k <=? NUM_CAPTURES); lia|].
  intros Hk. apply run_edges_run_isrs; auto.
Qed.

Lemma C2_capture_bounds_witness :
  let s := exec (pre_capture 13) (armed (replicate 1000 0) zero_table) in
  capture_idx s = 0 /\ finished_capturing s = 0 /\ TIE_C1I s = 1 /\
  forallb is_store_in_bounds (events_since s (run_isrs [1000; 2000; 2976] s)) = true.
Proof.
  intros s.
  assert (Hidx : capture_idx s = 0) by reflexivity.
  assert (Hfin : finished_capturing s = 0) by reflexivity.
  assert (Hen : TIE_C1I s = 1) by reflexivity.
  do 3 (split; [reflexivity|]).
  destruct (C2_capture_bounds s [1000; 2000; 2976] Hidx Hfin Hen) as (_ & _ & Hb & _).
  exact Hb.
Defined.

(** C3, as stated, fails: the invocation that stores the
    [NUM_CAPTURES]-th sample (at index 999, moving the cursor to the
    capacity) leaves [finished_capturing] at zero. *)
Lemma C3_flag_clear_at_capacity :
  let s999 := run_isrs (take 999 ramp_samples) (armed (replicate 1000 0) zero_table) in
  let tc := nth 999 ramp_samples 0 in
  let s1000 := exec (isr_invocation tc) s999 in
  effects (isr_invocation tc) s999 =
    [EvStore 999 tc; EvCursor NUM_CAPTURES; EvAck TFLG1_C1F_MASK] /\
  capture_idx s1000 = NUM_CAPTURES /\
  finished_capturing s1000 = 0.
Proof. vm_compute. repeat split. Qed.

(** C3, amended: from a reset state the flag reads true exactly after more
    than [NUM_CAPTURES] invocations.  After the invocation that stores the
    [NUM_CAPTURES]-th sample the cursor equals the capacity and the flag
    still reads false; the next invocation, the first to find the cursor at
    the capacity, sets it. *)
Theorem C3_flag_set_by_next_invocation (s : machine) (tcs : list Z) :
  capture_idx s = 0 -> finished_capturing s = 0 ->
  let k := Z.of_nat (length tcs) in
  let s' := run_isrs tcs s in
  (finished_capturing s' <> 0 <-> NUM_CAPTURES < k) /\
  (k = NUM_CAPTURES ->
     capture_idx s' = NUM_CAPTURES /\ finished_capturing s' = 0 /\
     forall tc, finished_capturing (exec (isr_invocation tc) s') = 1).
Proof.
  intros Hidx Hfin k s'.
  destruct (run_isrs_state s tcs Hidx Hfin) as (Hc & Hf & _).
  fold k s' in Hc, Hf.
  split.
  - rewrite Hf. destruct (Z.leb_spec k NUM_CAPTURES); split; intros; try lia.
  - intros Hk. rewrite Hc, Hf, Hk.
    split; [reflexivity|]. split; [reflexivity|].
    intros tc.
    destruct (run_isrs_state s (tcs ++ [tc]) Hidx Hfin) as (_ & Hf' & _).
    rewrite run_isrs_snoc, length_app in Hf'. cbn [length] in Hf'.
    fold s' in Hf'. rewrite Hf'.
    replace (Z.of_nat (length tcs + 1)) with (NUM_CAPTURES + 1) by (unfold k in Hk; lia).
    reflexivity.
Qed.

Lemma C3_flag_set_by_next_invocation_witness :
  let s := armed (replicate 1000 0) zero_table in
  capture_idx s = 0 /\ finished_capturing s = 0 /\
  (finished_capturing (run_isrs ramp_samples s) <> 0 <->
   NUM_CAPTURES < Z.of_nat (length ramp_samples)).
Proof.
  intros s.
  assert (Hidx : capture_idx s = 0) by reflexivity.
  assert (Hfin : finished_capturing s = 0) by reflexivity.
  split; [exact Hidx|]. split; [exact Hfin|].
  destruct (C3_flag_set_by_next_invocation s ramp_samples Hidx Hfin) as [H _].
  exact H.
Defined.

Lemma OC1_isr_TFLG1 (s : machine) :
  TFLG1 (exec OC1_isr s) = Z.ldiff (TFLG1 s) TFLG1_C1F_MASK.
Proof.
  destruct (Z.lt_trichotomy (capture_idx s) NUM_CAPTURES) as [H|[H|H]].
  - rewrite OC1_isr_append by exact H. reflexivity.
  - rewrite OC1_isr_full by exact H. reflexivity.
  - rewrite OC1_isr_beyond by exact H. reflexivity.
Qed.

Lemma OC1_isr_last_effect (s : machine) :
  last (effects OC1_isr s) = Some (EvAck TFLG1_C1F_MASK).
Proof.
  destruct (Z.lt_trichotomy (capture_idx s) NUM_CAPTURES) as [H|[H|H]].
  - rewrite (effects_app OC1_isr s _ (f_equal trace (OC1_isr_append s H))). reflexivity.
  - rewrite (effects_app OC1_isr s _ (f_equal trace (OC1_isr_full s H))). reflexivity.
  - rewrite (effects_app OC1_isr s _ (f_equal trace (OC1_isr_beyond s H))). reflexivity.
Qed.

(** C9: on every invocation of the ISR, whichever of its three paths is
    taken (sample stored, completion triggered, neither), the last thing it
    does is the write that acknowledges the channel-1 flag of [TFLG1]: the
    flag raised by the edge is clear when the ISR returns, and the other
    flags of the register are as they were. *)
Theorem C9_flag_acknowledged (s : machine) :
  let s' := exec OC1_isr s in
  last (effects OC1_isr s) = Some (EvAck TFLG1_C1F_MASK) /\
  Z.land (TFLG1 s') TFLG1_C1F_MASK = 0 /\
  Z.testbit (TFLG1 s') 1 = false /\
  (forall n, n <> 1 -> Z.testbit (TFLG1 s') n = Z.testbit (TFLG1 s) n) /\
  (forall tc,
      Z.testbit (TFLG1 (exec (latch_edge tc) s)) 1 = true /\
      Z.testbit (TFLG1 (exec (isr_invocation tc) s)) 1 = false) /\
  (capture_idx s < NUM_CAPTURES ->
     effects OC1_isr s = [EvStore (capture_idx s) (wrap16 (TC1 s));
                          EvCursor (wrap16 (capture_idx s + 1));
                          EvAck TFLG1_C1F_MASK]) /\
  (capture_idx s = NUM_CAPTURES ->
     effects OC1_isr s = [EvIrqEnable 0; EvFinished 1; EvAck TFLG1_C1F_MASK]) /\
  (NUM_CAPTURES < capture_idx s ->
     effects OC1_isr s = [EvAck TFLG1_C1F_MASK]).
Proof.
  intros s'. subst s'.
  assert (Hbit : forall x, Z.testbit (Z.ldiff x TFLG1_C1F_MASK) 1 = false).
  { intros x. rewrite Z.ldiff_spec. change (Z.testbit TFLG1_C1F_MASK 1) with true.
    apply andb_false_r. }
  split; [apply OC1_isr_last_effect|].
  rewrite OC1_isr_TFLG1.
  split; [apply Z.land_ldiff|].
  split; [apply Hbit|].
  split.
  { intros n Hn. rewrite Z.ldiff_spec.
    assert (Hm : Z.testbit TFLG1_C1F_MASK n = false).
    { unfold TFLG1_C1F_MASK. destruct n as [|[p|p|]|p]; try reflexivity; congruence. }
    rewrite Hm. apply andb_true_r. }
  split.
  { intros tc. split.
    - change (TFLG1 (exec (latch_edge tc) s)) with (Z.lor (TFLG1 s) TFLG1_C1F_MASK).
      rewrite Z.lor_spec. change (Z.testbit TFLG1_C1F_MASK 1) with true.
      apply orb_true_r.
    - rewrite isr_invocation_latch, OC1_isr_TFLG1. apply Hbit. }
  split; [|split].
  - intros H. apply effects_app. rewrite OC1_isr_append by exact H. reflexivity.
  - intros H. apply effects_app. rewrite OC1_isr_full by exact H. reflexivity.
  - intros H. apply effects_app. rewrite OC1_isr_beyond by exact H. reflexivity.
Qed.

Lemma C9_flag_acknowledged_witness :
  let s := run_isrs ramp_samples (armed (replicate 1000 0) zero_table) in
  capture_idx s = NUM_CAPTURES /\
  effects OC1_isr s = [EvIrqEnable 0; EvFinished 1; EvAck TFLG1_C1F_MASK].
Proof.
  intros s.
  assert (Hfull : capture_idx s = NUM_CAPTURES) by (vm_compute; reflexivity).
  split; [exact Hfull|].
  destruct (C9_flag_acknowledged s) as (_ & _ & _ & _ & _ & _ & H & _).
  exact (H Hfull).
Defined.

(** ** The reporter *)

Lemma exec_bind {A B} (c : M A) (k : A -> M B) (s : machine) :
  exec (c ≫= k) s = exec (k (fst (c s))) (snd (c s)).
Proof. unfold exec, mbind, M_bind. destruct (c s). reflexivity. Qed.

Lemma with_trace_same (s : machine) : with_trace (trace s) s = s.
Proof. destruct s. reflexivity. Qed.

Lemma print_bucket_exec (i : nat) (s : machine) :
  exec (print_bucket i) s =
  with_trace (trace s ++ (if decide (nth i (num_occurances s) 0 <> 0)
                          then [bucket_call (num_occurances s) i] else [])) s.
Proof.
  unfold print_bucket. run_c.
  destruct (Z.eqb_spec (nth i (num_occurances s) 0) 0) as [E|E];
    destruct (decide (nth i (num_occurances s) 0 <> 0)); try contradiction.
  - cbn. rewrite app_nil_r. symmetry. apply with_trace_same.
  - reflexivity.
Qed.

Lemma for_each_print_bucket (l : list nat) (s : machine) :
  exec (for_each l print_bucket) s =
  with_trace (trace s ++ map (bucket_call (num_occurances s))
                             (filter (fun i => nth i (num_occurances s) 0 <> 0) l)) s.
Proof.
  revert s; induction l as [|i l IH]; intros s.
  - cbn. rewrite app_nil_r. symmetry. apply with_trace_same.
  - cbn [for_each]. rewrite exec_bind.
    change (snd (print_bucket i s)) with (exec (print_bucket i) s).
    rewrite IH, print_bucket_exec, filter_cons.
    destruct (decide (nth i (num_occurances s) 0 <> 0)); cbn.
    + rewrite <- app_assoc. reflexivity.
    + rewrite app_nil_r. reflexivity.
Qed.

Lemma print_values_exec (s : machine) :
  exec print_values s =
  with_trace (trace s ++ EvPrintf fmt_finished [] :: EvPrintf fmt_buckets_used [] ::
                map (bucket_call (num_occurances s)) (used_buckets (num_occurances s))) s.
Proof.
  unfold print_values. rewrite !exec_bind.
  rewrite for_each_print_bucket. run_c.
  rewrite <- !app_assoc. reflexivity.
Qed.

Lemma filter_seq_ascending (P : nat -> Prop) `{forall i, Decision (P i)} (a n : nat) :
  StronglySorted lt (filter P (seq a n)).
Proof.
  revert a; induction n as [|n IH]; intros a; cbn [seq].
  - constructor.
  - rewrite filter_cons. destruct (decide (P a)); [|apply IH].
    constructor; [apply IH|].
    apply Forall_forall. intros x Hx.
    apply list_elem_of_filter in Hx as [_ Hx]. apply elem_of_seq in Hx. lia.
Qed.

Lemma render_bucket_call (conv_d : Z -> string) (period count : Z) :
  render_format conv_d None fmt_bucket [period; count] = bucket_line conv_d period count.
Proof. reflexivity. Qed.

Lemma rendered_bucket_calls (conv_d : Z -> string) (occ : list Z) (l : list nat) :
  rendered conv_d (map (bucket_call occ) l) =
  map (fun i => bucket_line conv_d (Z.of_nat i + LOW_PERIOD) (nth i occ 0)) l.
Proof.
  induction l as [|i l IH]; [reflexivity|].
  unfold rendered in *. cbn [map concat render_event bucket_call app].
  rewrite render_bucket_call. f_equal. exact IH.
Qed.

(** C6: for every bucket table the reporter, after its two heading lines,
    makes one [printf] call per non-zero counter and none for a zero one, in
    ascending index order; each call prints the literal line
    [Bucket <index + LOW_PERIOD>: <count>] with the period right-justified
    in three characters.  A table that is non-zero at the indices 3 and 80
    only gives exactly the two lines for the periods 953 and 1030, in that
    order. *)
Theorem C6_report_lines (conv_d : Z -> string) (s : machine) :
  let occ := num_occurances s in
  effects print_values s =
    EvPrintf fmt_finished [] :: EvPrintf fmt_buckets_used [] ::
    map (bucket_call occ) (used_buckets occ) /\
  rendered conv_d (effects print_values s) =
    fmt_finished :: fmt_buckets_used ::
    map (fun i => bucket_line conv_d (Z.of_nat i + LOW_PERIOD) (nth i occ 0))
        (used_buckets occ) /\
  (forall i, i ∈ used_buckets occ <-> (i < Z.to_nat NUM_BUCKETS)%nat /\ nth i occ 0 <> 0) /\
  StronglySorted lt (used_buckets occ) /\
  ((forall i, nth i occ 0 <> 0 <-> i = 3%nat \/ i = 80%nat) ->
   used_buckets occ = [3%nat; 80%nat] /\
   rendered conv_d (effects print_values s) =
     [fmt_finished; fmt_buckets_used;
      bucket_line conv_d (3 + LOW_PERIOD) (nth 3 occ 0);
      bucket_line conv_d (80 + LOW_PERIOD) (nth 80 occ 0)]).
Proof.
  intros occ.
  assert (Heff : effects print_values s =
                 EvPrintf fmt_finished [] :: EvPrintf fmt_buckets_used [] ::
                 map (bucket_call occ) (used_buckets occ)).
  { apply effects_app. rewrite print_values_exec. reflexivity. }
  assert (Hren : rendered conv_d (effects print_values s) =
                 fmt_finished :: fmt_buckets_used ::
                 map (fun i => bucket_line conv_d (Z.of_nat i + LOW_PERIOD) (nth i occ 0))
                     (used_buckets occ)).
  { rewrite Heff.
    change (rendered conv_d (?a :: ?b :: ?l))
      with (render_event conv_d a ++ render_event conv_d b ++ rendered conv_d l).
    rewrite rendered_bucket_calls. reflexivity. }
  split; [exact Heff|]. split; [exact Hren|].
  split.
  { intros i. unfold used_buckets. rewrite list_elem_of_filter, elem_of_seq. split.
    - intros [Hnz Hi]. split; [lia | exact Hnz].
    - intros [Hi Hnz]. split; [exact Hnz | lia]. }
  split; [apply filter_seq_ascending|].
  intros Honly.
  assert (Hused : used_buckets occ = [3%nat; 80%nat]).
  { unfold used_buckets.
    rewrite (list_filter_iff _ (fun i => i = 3%nat \/ i = 80%nat) _ Honly).
    vm_compute. reflexivity. }
  split; [exact Hused|].
  rewrite Hren, Hused. reflexivity.
Qed.

Lemma C6_report_lines_witness :
  let s := armed [] example_table in
  (forall i, nth i (num_occurances s) 0 <> 0 <-> i = 3%nat \/ i = 80%nat) /\
  rendered decimal (effects print_values s) =
    [("Finished capturing." ++ crlf)%string;
     ("100 Buckets used; omitting empty buckets." ++ crlf)%string;
     ("Bucket 953: 7" ++ crlf)%string;
     ("Bucket 1030: 12" ++ crlf)%string].
Proof.
  intros s.
  assert (Honly : forall i, nth i (num_occurances s) 0 <> 0 <-> i = 3%nat \/ i = 80%nat).
  { intros i. change (num_occurances s) with example_table. unfold example_table.
    destruct (decide (i = 3%nat)) as [->|H3].
    { split; [auto | intros _; vm_compute; discriminate]. }
    destruct (decide (i = 80%nat)) as [->|H80].
    { split; [auto | intros _; vm_compute; discriminate]. }
    rewrite !nth_insert_ne, nth_zero_table by auto.
    split; [congruence | intros [?|?]; contradiction]. }
  split; [exact Honly|].
  destruct (C6_report_lines decimal s) as (_ & _ & _ & _ & Hex).
  destruct (Hex Honly) as [_ Hlines].
  rewrite Hlines. vm_compute. reflexivity.
Defined.

(** ** The session controller *)

Lemma pre_capture_exec (ch : Z) (s : machine) :
  exec (pre_capture ch) s =
  Machine zero_table (capture_values s) 0 0 (TC1 s) 1 (TFLG1 s)
          (trace s ++ [EvPrintf fmt_prompt []; EvMemset; EvFinished 0;
                       EvCursor 0; EvGetChar ch; EvIrqEnable 1]).
Proof. run_c. unfold with_trace; cbn. tidy_trace. reflexivity. Qed.

Lemma pre_capture_effects (ch : Z) (s : machine) :
  effects (pre_capture ch) s =
  [EvPrintf fmt_prompt []; EvMemset; EvFinished 0; EvCursor 0; EvGetChar ch; EvIrqEnable 1].
Proof. apply effects_app. rewrite pre_capture_exec. reflexivity. Qed.

(** Order of two classes of events in a trace of six, by cases on the two
    positions. *)
Ltac order_by_cases :=
  let i := fresh "i" in let j := fresh "j" in
  let Hi := fresh "Hi" in let Hj := fresh "Hj" in
  let Hp := fresh "Hp" in let Hq := fresh "Hq" in
  unfold precedes; intros i j ? ? Hi Hj Hp Hq;
  destruct i as [|[|[|[|[|[|i]]]]]]; cbn in Hi; try discriminate Hi;
  injection Hi as <-; cbn in Hp; try discriminate Hp;
  destruct j as [|[|[|[|[|[|j]]]]]]; cbn in Hj; try discriminate Hj;
  injection Hj as <-; cbn in Hq; try discriminate Hq; lia.

(** C8, as stated, fails: in the trace of [pre_capture] the blocking
    [GetChar] (position 4) comes after the reset of the bucket table
    (position 1), not before it. *)
Lemma C8_reset_precedes_acknowledge :
  let tr := effects (pre_capture 13) (armed (replicate 1000 0) zero_table) in
  tr !! 1%nat = Some EvMemset /\
  tr !! 4%nat = Some (EvGetChar 13) /\
  ~ acknowledge_reset_arm tr.
Proof.
  intros tr. split; [reflexivity|]. split; [reflexivity|].
  intros [Hack _].
  specialize (Hack 4%nat 1%nat (EvGetChar 13) EvMemset eq_refl eq_refl eq_refl eq_refl).
  lia.
Qed.

Lemma run_edges_trace (tcs : list Z) (s : machine) :
  exists evs, trace (run_edges tcs s) = trace s ++ evs.
Proof.
  induction tcs as [|tc tcs IH] using rev_ind.
  - exists []. cbn. rewrite app_nil_r. reflexivity.
  - destruct IH as [evs IH]. rewrite run_edges_snoc.
    set (s1 := run_edges tcs s) in *.
    destruct (Z.eq_dec (TIE_C1I s1) 0) as [Hd|He].
    + rewrite capture_edge_disabled by exact Hd.
      exists evs. exact IH.
    + rewrite capture_edge_enabled, isr_invocation_latch by exact He.
      set (s2 := exec (latch_edge tc) s1).
      assert (Ht : trace s2 = trace s1) by reflexivity.
      destruct (Z.lt_trichotomy (capture_idx s2) NUM_CAPTURES) as [H|[H|H]].
      * rewrite OC1_isr_append by exact H. cbn [trace].
        rewrite Ht, IH, <- app_assoc. eexists. reflexivity.
      * rewrite OC1_isr_full by exact H. cbn [trace].
        rewrite Ht, IH, <- app_assoc. eexists. reflexivity.
      * rewrite OC1_isr_beyond by exact H. cbn [trace].
        rewrite Ht, IH, <- app_assoc. eexists. reflexivity.
Qed.

Lemma post_capture_exec (s : machine) :
  exec post_capture s = exec print_values (exec process_values s).
Proof. reflexivity. Qed.

(** C8, amended: in every round [pre_capture] prints the prompt, then
    resets the bucket table, the completion flag and the cursor, then blocks
    in [GetChar] until the operator has struck a key, and only then enables
    the edge interrupt.  The resets strictly precede both the blocking
    acknowledgement and the arming; the round's trace starts with these six
    effects. *)
Theorem C8_prompt_reset_acknowledge_arm (ch : Z) (s : machine) :
  let s' := exec (pre_capture ch) s in
  effects (pre_capture ch) s =
    [EvPrintf fmt_prompt []; EvMemset; EvFinished 0; EvCursor 0;
     EvGetChar ch; EvIrqEnable 1] /\
  reset_acknowledge_arm (effects (pre_capture ch) s) /\
  precedes is_reset_write is_arming (effects (pre_capture ch) s) /\
  num_occurances s' = zero_table /\
  capture_idx s' = 0 /\ finished_capturing s' = 0 /\ TIE_C1I s' = 1 /\
  capture_values s' = capture_values s /\
  (forall rereads tcs s2, main_round rereads ch tcs s = Some s2 ->
     exists rest, trace s2 = trace s ++ effects (pre_capture ch) s ++ rest).
Proof.
  intros s'. subst s'.
  split; [apply pre_capture_effects|].
  rewrite pre_capture_effects.
  split; [unfold reset_acknowledge_arm; split; [|split]; order_by_cases|].
  split; [order_by_cases|].
  rewrite pre_capture_exec. cbn [num_occurances capture_idx finished_capturing TIE_C1I capture_values].
  do 5 (split; [reflexivity|]).
  intros rereads tcs s2. unfold main_round.
  destruct rereads; cbn [andb]; [|discriminate].
  destruct (negb (finished_capturing (run_edges tcs (exec (pre_capture ch) s)) =? 0));
    [|discriminate].
  intros [= <-].
  destruct (run_edges_trace tcs (exec (pre_capture ch) s)) as [evs Hevs].
  rewrite post_capture_exec, print_values_exec. cbn [trace].
  change (trace (exec process_values ?x)) with (trace x).
  rewrite Hevs. rewrite pre_capture_exec. cbn [trace].
  rewrite <- !app_assoc. eexists. reflexivity.
Qed.

Lemma C8_prompt_reset_acknowledge_arm_witness :
  let s := armed (replicate 1000 0) zero_table in
  exists s2,
    main_round true 13 (ramp_samples ++ [0]) s = Some s2 /\
    exists rest, trace s2 = trace s ++ effects (pre_capture 13) s ++ rest.
Proof.
  intros s.
  destruct (main_round true 13 (ramp_samples ++ [0]) s) as [s2|] eqn:E.
  - exists s2. split; [reflexivity|].
    destruct (C8_prompt_reset_acknowledge_arm 13 s) as (_ & _ & _ & _ & _ & _ & _ & _ & H).
    exact (H true (ramp_samples ++ [0]) s2 E).
  - vm_compute in E. discriminate E.
Defined.

(** ** The completion flag between two resets *)

Lemma OC1_isr_keeps_flag (s : machine) :
  finished_capturing s <> 0 -> finished_capturing (exec OC1_isr s) <> 0.
Proof.
  intros Hset.
  destruct (Z.lt_trichotomy (capture_idx s) NUM_CAPTURES) as [H|[H|H]].
  - rewrite OC1_isr_append by exact H. exact Hset.
  - rewrite OC1_isr_full by exact H. discriminate.
  - rewrite OC1_isr_beyond by exact H. exact Hset.
Qed.

Lemma print_values_flag (s : machine) :
  finished_capturing (exec print_values s) = finished_capturing s.
Proof. rewrite print_values_exec. reflexivity. Qed.

Lemma perform_keeps_flag (a : activity) (s : machine) :
  is_round_reset a = false ->
  finished_capturing s <> 0 -> finished_capturing (exec (perform a) s) <> 0.
Proof.
  intros Ha Hset. destruct a as [tc|tc| | | | |ch]; cbn [perform]; try discriminate Ha.
  - rewrite isr_invocation_latch. apply OC1_isr_keeps_flag. exact Hset.
  - destruct (Z.eq_dec (TIE_C1I s) 0) as [Hd|He].
    + rewrite capture_edge_disabled by exact Hd. exact Hset.
    + rewrite capture_edge_enabled, isr_invocation_latch by exact He.
      apply OC1_isr_keeps_flag. exact Hset.
  - exact Hset.
  - exact Hset.
  - rewrite print_values_flag. exact Hset.
  - rewrite post_capture_exec, print_values_flag. exact Hset.
Qed.

(** C4: once [finished_capturing] is set, it stays set through any
    sequence of ISR invocations, edges, histogram and report steps; the only
    activity after which it reads zero is the controller's [pre_capture],
    and [pre_capture] always clears it. *)
Theorem C4_flag_stays_set (acts : list activity) (s : machine) :
  finished_capturing s <> 0 ->
  forallb (fun a => negb (is_round_reset a)) acts = true ->
  let s' := run_activities acts s in
  finished_capturing s' <> 0 /\
  (forall a, finished_capturing (exec (perform a) s') = 0 -> is_round_reset a = true) /\
  (forall ch, finished_capturing (exec (pre_capture ch) s') = 0).
Proof.
  intros Hset Hacts s'.
  assert (Hs' : finished_capturing s' <> 0).
  { subst s'. revert s Hset. induction acts as [|a acts IH]; intros s Hset; [exact Hset|].
    cbn [forallb] in Hacts. apply andb_prop in Hacts as [Ha Hrest].
    cbn [run_activities fold_left]. apply (IH Hrest).
    apply perform_keeps_flag; [|exact Hset].
    destruct (is_round_reset a); [discriminate Ha | reflexivity]. }
  split; [exact Hs'|]. split.
  - intros a Hzero. destruct (is_round_reset a) eqn:Ea; [reflexivity|].
    exfalso. exact (perform_keeps_flag a s' Ea Hs' Hzero).
  - intros ch. rewrite pre_capture_exec. reflexivity.
Qed.

Lemma C4_flag_stays_set_witness :
  let s := run_isrs (ramp_samples ++ [0]) (armed (replicate 1000 0) zero_table) in
  let acts := [ActEdge 17; ActIsr 18; ActProcess; ActPrint; ActPostCapture; ActInitBuckets] in
  finished_capturing s <> 0 /\
  forallb (fun a => negb (is_round_reset a)) acts = true /\
  finished_capturing (run_activities acts s) <> 0.
Proof.
  intros s acts.
  assert (Hset : finished_capturing s <> 0) by (vm_compute; discriminate).
  assert (Hacts : forallb (fun a => negb (is_round_reset a)) acts = true) by reflexivity.
  split; [exact Hset|]. split; [exact Hacts|].
  destruct (C4_flag_stays_set acts s Hset Hacts) as [H _]. exact H.
Defined.

(** * Further properties of the code *)

(** ** The histogram *)

(** Timer rollover: the bucket of two captures depends only on the ticks
    elapsed between them (less than one turn of the 16-bit counter), not on
    where the counter stood: a pair [d] ticks apart lands in bucket
    [d - LOW_PERIOD] when [d] is in the window, and nowhere otherwise, also
    when the counter wrapped between the two edges. *)
Theorem bucket_index_rollover (t d : Z) (occ : list Z) :
  0 <= d < 65536 ->
  let hit := (LOW_PERIOD <=? d) && (d <? LOW_PERIOD + NUM_BUCKETS) in
  let k := Z.to_nat (d - LOW_PERIOD) in
  bucket_index (wrap16 t) (wrap16 (t + d)) = (if hit then Some k else None) /\
  process_pair (wrap16 t) (wrap16 (t + d)) occ =
    (if hit then <[k := wrap16 (nth k occ 0 + 1)]> occ else occ).
Proof.
  intros Hd hit k.
  assert (Hdelta : wrap16 (wrap16 (t + d) - wrap16 t) = d).
  { unfold wrap16. rewrite <- Zminus_mod.
    replace (t + d - t) with d by lia. apply Z.mod_small. lia. }
  assert (Hidx : bucket_index (wrap16 t) (wrap16 (t + d)) = if hit then Some k else None).
  { subst hit k.
    destruct (Z.leb_spec LOW_PERIOD d) as [Hlo|Hlo];
      [destruct (Z.ltb_spec d (LOW_PERIOD + NUM_BUCKETS)) as [Hhi|Hhi]|]; cbn [andb].
    - rewrite bucket_index_window; rewrite Hdelta; [reflexivity|]. split; assumption.
    - apply bucket_index_outside. rewrite Hdelta. unfold in_window. lia.
    - apply bucket_index_outside. rewrite Hdelta. unfold in_window. lia. }
  split; [exact Hidx|].
  rewrite process_pair_index, Hidx. destruct hit; reflexivity.
Qed.

Lemma bucket_index_rollover_witness :
  0 <= 1000 < 65536 /\
  wrap16 (65000 + 1000) = 464 /\
  bucket_index (wrap16 65000) (wrap16 (65000 + 1000)) = Some 50%nat.
Proof.
  assert (H : 0 <= 1000 < 65536) by lia.
  split; [exact H|]. split; [reflexivity|].
  destruct (bucket_index_rollover 65000 1000 zero_table H) as [Hidx _].
  rewrite Hidx. reflexivity.
Defined.

(** Accumulation: one run of the loop of [process_values] adds to every
    counter of the table the number of pairs that land in its bucket, as a
    [UINT16]; counters are never overwritten or cleared. *)
Theorem process_values_accumulates (s : machine) (j : nat) :
  length (num_occurances s) = Z.to_nat NUM_BUCKETS ->
  0 <= nth j (num_occurances s) 0 < 65536 ->
  nth j (num_occurances (exec process_values s)) 0 =
  wrap16 (nth j (num_occurances s) 0 +
          Z.of_nat (hits (capture_values s) (loop_indices (Z.to_nat NUM_CAPTURES)) j)).
Proof.
  intros Hlen Hj. rewrite process_values_table. unfold process_loop.
  apply nth_process_fold; assumption.
Qed.

Lemma process_values_accumulates_witness :
  let s := armed example_snapshot example_table in
  length (num_occurances s) = Z.to_nat NUM_BUCKETS /\
  0 <= nth 3 (num_occurances s) 0 < 65536 /\
  nth 3 (num_occurances (exec process_values s)) 0 =
  wrap16 (nth 3 (num_occurances s) 0 +
          Z.of_nat (hits (capture_values s) (loop_indices (Z.to_nat NUM_CAPTURES)) 3)).
Proof.
  intros s.
  assert (Hlen : length (num_occurances s) = Z.to_nat NUM_BUCKETS) by reflexivity.
  assert (Hj : 0 <= nth 3 (num_occurances s) 0 < 65536) 
    by (change (nth 3 (num_occurances s) 0) with 7; lia).
  split; [exact Hlen|]. split; [exact Hj|].
  exact (process_values_accumulates s 3 Hlen Hj).
Defined.

Lemma process_fold_exact_sum (caps : list Z) (l : list nat) (occ : list Z) :
  length occ = 100%nat ->
  Forall (fun x => 0 <= x) occ ->
  table_sum occ + Z.of_nat (length l) < 65536 ->
  table_sum (fold_left (process_iter caps) l occ) =
  table_sum occ +
  Z.of_nat (length (filter (fun i => is_Some (bucket_index (nth (i - 1) caps 0) (nth i caps 0))) l)).
Proof.
  revert occ; induction l as [|i l IH]; intros occ Hlen Hpos Hsum.
  - cbn [fold_left]. rewrite filter_nil. cbn [length]. lia.
  - change (length (i :: l)) with (S (length l)) in Hsum.
    destruct (process_pair_sum (nth (i - 1) caps 0) (nth i caps 0) occ Hlen Hpos) as [Hp Hs].
    simpl fold_left. rewrite filter_cons. unfold process_iter at 2.
    rewrite IH; [|rewrite length_process_pair; exact Hlen | exact Hp | lia].
    rewrite process_pair_index.
    destruct (bucket_index (nth (i - 1) caps 0) (nth i caps 0)) as [k|] eqn:Ek.
    + pose proof (bucket_index_lt _ _ _ Ek) as Hk.
      pose proof (nth_le_table_sum occ k Hpos) as Hn.
      destruct (decide (is_Some (Some k))) as [_|Hno]; [|exfalso; apply Hno; eauto].
      rewrite table_sum_insert by lia. rewrite wrap16_small by lia.
      change (length (i :: ?t)) with (S (length t)). lia.
    + destruct (decide (is_Some (@None nat))) as [Hyes|_]; [destruct Hyes; discriminate|].
      reflexivity.
Qed.

(** Conservation: after [init_buckets] and one run of [process_values] the
    counters add up to exactly the number of adjacent pairs whose delta
    passes the guard; every such pair is counted once and no other pair is
    counted. *)
Theorem process_values_counts_each_pair_once (s : machine) :
  table_sum (num_occurances (exec process_values (exec init_buckets s))) =
  Z.of_nat (length (counted_pairs (capture_values s))).
Proof.
  rewrite process_values_table, init_buckets_table.
  change (capture_values (exec init_buckets s)) with (capture_values s).
  unfold process_loop, counted_pairs.
  rewrite process_fold_exact_sum.
  - rewrite table_sum_zero_table. lia.
  - apply length_zero_table.
  - apply Forall_zero_table.
  - rewrite table_sum_zero_table, length_loop_indices. lia.
Qed.

Lemma bucket_index_Some (prev cur : Z) (j : nat) :
  bucket_index prev cur = Some j <->
  (j < 100)%nat /\ wrap16 (cur - prev) = Z.of_nat j + LOW_PERIOD.
Proof.
  split.
  - intros E. pose proof (bucket_index_lt _ _ _ E) as Hj. split; [exact Hj|].
    destruct (classic_window (wrap16 (cur - prev))) as [Hw|Hw].
    + rewrite (bucket_index_window _ _ Hw) in E. injection E as E.
      unfold in_window in Hw. lia.
    + rewrite (bucket_index_outside _ _ Hw) in E. discriminate E.
  - intros [Hj Hd].
    rewrite bucket_index_window; rewrite Hd.
    + f_equal. lia.
    + unfold in_window, NUM_BUCKETS. lia.
Qed.

(** The report lists a period exactly when it was measured: after
    [init_buckets] and [process_values], bucket [j] is among the buckets
    printed if and only if some adjacent pair of the capture buffer is
    [j + LOW_PERIOD] ticks apart (16-bit wrapping difference). *)
Theorem bucket_reported_iff_period_seen (s : machine) (j : nat) :
  j ∈ used_buckets (num_occurances (exec process_values (exec init_buckets s))) <->
  (j < 100)%nat /\
  exists i, (1 <= i < 1000)%nat /\
    wrap16 (nth i (capture_values s) 0 - nth (i - 1) (capture_values s) 0) =
    Z.of_nat j + LOW_PERIOD.
Proof.
  rewrite process_values_table, init_buckets_table.
  change (capture_values (exec init_buckets s)) with (capture_values s).
  unfold used_buckets. rewrite list_elem_of_filter, elem_of_seq.
  rewrite nth_process_loop_zero.
  change (Z.to_nat NUM_BUCKETS) with 100%nat.
  set (l := loop_indices (Z.to_nat NUM_CAPTURES)).
  assert (Hhits : hits (capture_values s) l j <> 0%nat <->
                  exists i, i ∈ l /\
                    bucket_index (nth (i - 1) (capture_values s) 0)
                                 (nth i (capture_values s) 0) = Some j).
  { unfold hits. rewrite length_zero_iff_nil. split.
    - intros Hne.
      destruct (filter _ l) as [|i rest] eqn:E; [contradiction|].
      assert (Hi : i ∈ filter (fun i => bucket_index (nth (i - 1) (capture_values s) 0)
                                   (nth i (capture_values s) 0) = Some j) l)
        by (rewrite E; left).
      apply list_elem_of_filter in Hi as [Hb Hi]. exists i. split; assumption.
    - intros (i & Hi & Hb) E.
      assert (Hin : i ∈ filter (fun i => bucket_index (nth (i - 1) (capture_values s) 0)
                                   (nth i (capture_values s) 0) = Some j) l)
        by (apply list_elem_of_filter; split; assumption).
      rewrite E in Hin. inversion Hin. }
  split.
  - intros [Hnz Hj]. split; [lia|].
    assert (Hh : hits (capture_values s) l j <> 0%nat) by lia.
    apply Hhits in Hh as (i & Hi & Hb).
    unfold l, loop_indices in Hi.
    change (Z.to_nat NUM_CAPTURES - 1)%nat with 999%nat in Hi.
    apply elem_of_seq in Hi. apply bucket_index_Some in Hb as [_ Hb].
    exists i. split; [lia | exact Hb].
  - intros (Hj & i & Hi & Hd). split; [|lia].
    assert (Hh : hits (capture_values s) l j <> 0%nat); [|lia].
    apply Hhits. exists i. split.
    + unfold l, loop_indices.
      change (Z.to_nat NUM_CAPTURES - 1)%nat with 999%nat.
      apply elem_of_seq. lia.
    + apply bucket_index_Some. split; assumption.
Qed.

Lemma process_pair_frame (prev cur : Z) (occ extra : list Z) :
  length occ = 100%nat ->
  process_pair prev cur (occ ++ extra) = process_pair prev cur occ ++ extra.
Proof.
  intros Hlen. rewrite !process_pair_index.
  destruct (bucket_index prev cur) as [k|] eqn:Ek; [|reflexivity].
  pose proof (bucket_index_lt _ _ _ Ek) as Hk.
  rewrite insert_app_l by lia. rewrite app_nth1 by lia. reflexivity.
Qed.

(** ** The capture buffer *)

Lemma wrap16_idem (z : Z) : wrap16 (wrap16 z) = wrap16 z.
Proof. unfold wrap16. apply Zmod_mod. Qed.

Lemma latch_edge_exec (tc : Z) (s : machine) :
  exec (latch_edge tc) s =
  Machine (num_occurances s) (capture_values s) (capture_idx s)
          (finished_capturing s) (wrap16 tc) (TIE_C1I s)
          (Z.lor (TFLG1 s) TFLG1_C1F_MASK) (trace s).
Proof. reflexivity. Qed.

(** One ISR invocation on the buffer: below the capacity the sample goes to
    the slot under the cursor, at the capacity the buffer is left alone. *)
Lemma isr_invocation_buffer (tc : Z) (s : machine) :
  0 <= capture_idx s <= NUM_CAPTURES ->
  capture_values (exec (isr_invocation tc) s) =
  (if capture_idx s <? NUM_CAPTURES
   then <[Z.to_nat (capture_idx s) := wrap16 tc]> (capture_values s)
   else capture_values s) /\
  num_occurances (exec (isr_invocation tc) s) = num_occurances s.
Proof.
  intros Hr. rewrite isr_invocation_latch.
  destruct (Z.ltb_spec (capture_idx s) NUM_CAPTURES) as [H|H].
  - rewrite OC1_isr_append by exact H. rewrite latch_edge_exec.
    cbn [capture_values capture_idx TC1 num_occurances]. rewrite wrap16_idem. split; reflexivity.
  - rewrite OC1_isr_full by (rewrite latch_edge_exec; cbn [capture_idx]; lia).
    split; reflexivity.
Qed.

Lemma insert_at_boundary (l : list Z) (old : list Z) (k : nat) (v : Z) :
  length l = k -> (k < length old)%nat ->
  <[k := v]> (l ++ drop k old) = (l ++ [v]) ++ drop (S k) old.
Proof.
  intros Hl Hk.
  destruct (lookup_lt_is_Some_2 old k Hk) as [x Hx].
  rewrite (drop_S old x k Hx).
  rewrite insert_app_r_alt by lia. rewrite Hl, Nat.sub_diag. cbn.
  rewrite <- app_assoc. reflexivity.
Qed.

(** The buffer after the invocations [tcs]: the first [NUM_CAPTURES] samples
    in order of arrival, each truncated to 16 bits, then the old content of
    the slots not reached. *)
Lemma run_isrs_buffer (s : machine) (tcs : list Z) :
  capture_idx s = 0 -> finished_capturing s = 0 ->
  length (capture_values s) = Z.to_nat NUM_CAPTURES ->
  capture_values (run_isrs tcs s) =
    kept_samples tcs ++ drop (length (kept_samples tcs)) (capture_values s) /\
  num_occurances (run_isrs tcs s) = num_occurances s.
Proof.
  intros Hidx Hfin Hlen. induction tcs as [|tc tcs IH] using rev_ind.
  - cbn. split; reflexivity.
  - destruct IH as [IHb IHo].
    destruct (run_isrs_state s tcs Hidx Hfin) as (Hc & _).
    cbv zeta in Hc. rewrite run_isrs_snoc.
    set (s1 := run_isrs tcs s) in *.
    destruct (isr_invocation_buffer tc s1) as [Hb Ho];
      [rewrite Hc; unfold NUM_CAPTURES; lia|].
    rewrite Hb, Ho, IHo. split; [|reflexivity].
    unfold kept_samples in *. change (Z.to_nat NUM_CAPTURES) with 1000%nat in *.
    rewrite Hc. unfold NUM_CAPTURES.
    destruct (Z.ltb_spec (Z.of_nat (length tcs) `min` 1000) 1000) as [Hlt|Hge].
    + rewrite Z.min_l by lia. rewrite Nat2Z.id.
      rewrite take_ge in IHb |- * by (rewrite ?length_app; cbn [length]; lia).
      rewrite IHb, map_app, !length_map, length_app. cbn [map length].
      rewrite insert_at_boundary by (rewrite ?length_map; lia).
      rewrite length_map. f_equal. f_equal. lia.
    + rewrite take_app_le by lia. exact IHb.
Qed.

Lemma run_edges_buffer (s : machine) (tcs : list Z) :
  capture_idx s = 0 -> finished_capturing s = 0 -> TIE_C1I s = 1 ->
  length (capture_values s) = Z.to_nat NUM_CAPTURES ->
  capture_values (run_edges tcs s) =
    kept_samples tcs ++ drop (length (kept_samples tcs)) (capture_values s) /\
  num_occurances (run_edges tcs s) = num_occurances s.
Proof.
  intros Hidx Hfin Hen Hlen. induction tcs as [|tc tcs IH] using rev_ind.
  - cbn. split; reflexivity.
  - destruct (Z_le_gt_dec (Z.of_nat (length tcs)) NUM_CAPTURES) as [Hle|Hgt].
    + rewrite run_edges_run_isrs; auto.
      * apply run_isrs_buffer; assumption.
      * rewrite length_app. cbn [length]. lia.
    + destruct (run_edges_state s tcs Hidx Hfin Hen) as (_ & _ & He & _).
      cbv zeta in He.
      destruct (Z.leb_spec (Z.of_nat (length tcs)) NUM_CAPTURES); [lia|].
      rewrite run_edges_snoc, capture_edge_disabled by exact He.
      rewrite latch_edge_exec. cbn [capture_values num_occurances].
      unfold kept_samples in *. rewrite take_app_le; [exact IH|].
      unfold NUM_CAPTURES in *. lia.
Qed.

(** The capture buffer records the first [NUM_CAPTURES] edges of a round, in
    order of arrival, each sample truncated to 16 bits; slots not reached
    yet keep their old content, and the edges after the buffer is full are
    not recorded anywhere: neither the one that triggers completion nor any
    later one changes the buffer. *)
Theorem capture_buffer_keeps_first_samples (s : machine) (tcs : list Z) :
  capture_idx s = 0 -> finished_capturing s = 0 -> TIE_C1I s = 1 ->
  length (capture_values s) = Z.to_nat NUM_CAPTURES ->
  let n := length (kept_samples tcs) in
  n = Nat.min (length tcs) (Z.to_nat NUM_CAPTURES) /\
  capture_values (run_isrs tcs s) = kept_samples tcs ++ drop n (capture_values s) /\
  capture_values (run_edges tcs s) = kept_samples tcs ++ drop n (capture_values s) /\
  (NUM_CAPTURES <= Z.of_nat (length tcs) ->
     capture_values (run_edges tcs s) = kept_samples tcs) /\
  length (capture_values (run_edges tcs s)) = Z.to_nat NUM_CAPTURES.
Proof.
  intros Hidx Hfin Hen Hlen n.
  assert (Hn : n = Nat.min (length tcs) (Z.to_nat NUM_CAPTURES)).
  { subst n. unfold kept_samples. rewrite length_map, length_take. lia. }
  destruct (run_isrs_buffer s tcs Hidx Hfin Hlen) as [Hi _].
  destruct (run_edges_buffer s tcs Hidx Hfin Hen Hlen) as [He _].
  split; [exact Hn|]. split; [exact Hi|]. split; [exact He|]. split.
  - intros Hfull. rewrite He. fold n.
    rewrite drop_ge by (rewrite Hlen, Hn; unfold NUM_CAPTURES in *; lia).
    apply app_nil_r.
  - rewrite He. fold n. rewrite length_app, length_drop, Hlen. fold n.
    rewrite Hn. lia.
Qed.

Lemma capture_buffer_keeps_first_samples_witness :
  let s := exec (pre_capture 13) (armed (replicate 1000 9) zero_table) in
  capture_idx s = 0 /\ finished_capturing s = 0 /\ TIE_C1I s = 1 /\
  length (capture_values s) = Z.to_nat NUM_CAPTURES /\
  capture_values (run_edges [70000; 5; 6] s) = [4464; 5; 6] ++ replicate 997 9.
Proof.
  intros s.
  assert (Hidx : capture_idx s = 0) by reflexivity.
  assert (Hfin : finished_capturing s = 0) by reflexivity.
  assert (Hen : TIE_C1I s = 1) by reflexivity.
  assert (Hlen : length (capture_values s) = Z.to_nat NUM_CAPTURES) by reflexivity.
  do 4 (split; [reflexivity|]).
  destruct (capture_buffer_keeps_first_samples s [70000; 5; 6] Hidx Hfin Hen Hlen)
    as (_ & _ & H & _).
  rewrite H. vm_compute. reflexivity.
Defined.

(** A cursor beyond the capacity is never repaired: the ISR then takes
    neither branch, so no sequence of invocations stores a sample, moves the
    cursor, sets the completion flag or disables the interrupt; the capture
    never completes. *)
Theorem cursor_beyond_capacity_is_stuck (s : machine) (tcs : list Z) :
  NUM_CAPTURES < capture_idx s ->
  let s' := run_isrs tcs s in
  capture_idx s' = capture_idx s /\
  capture_values s' = capture_values s /\
  finished_capturing s' = finished_capturing s /\
  TIE_C1I s' = TIE_C1I s /\
  count_events is_store (events_since s s') = 0%nat /\
  count_events is_completion (events_since s s') = 0%nat.
Proof.
  intros Hbeyond s'. subst s'.
  assert (H : capture_idx (run_isrs tcs s) = capture_idx s /\
              capture_values (run_isrs tcs s) = capture_values s /\
              finished_capturing (run_isrs tcs s) = finished_capturing s /\
              TIE_C1I (run_isrs tcs s) = TIE_C1I s /\
              exists evs, trace (run_isrs tcs s) = trace s ++ evs /\
                          count_events is_store evs = 0%nat /\
                          count_events is_completion evs = 0%nat).
  { induction tcs as [|tc tcs IH] using rev_ind.
    - repeat split. exists []. rewrite app_nil_r. repeat split.
    - destruct IH as (Ic & Ib & If & Ie & evs & It & Is & In).
      rewrite run_isrs_snoc, isr_invocation_latch.
      rewrite OC1_isr_beyond by (rewrite latch_edge_exec; cbn [capture_idx]; lia).
      rewrite latch_edge_exec.
      cbn [capture_idx capture_values finished_capturing TIE_C1I trace].
      repeat split; auto.
      exists (evs ++ [EvAck TFLG1_C1F_MASK]). rewrite It, <- app_assoc.
      rewrite !count_events_app, Is, In. repeat split. }
  destruct H as (Hc & Hb & Hf & He & evs & Ht & Hs & Hn).
  rewrite (events_since_app _ _ _ Ht). repeat split; assumption.
Qed.

Lemma cursor_beyond_capacity_is_stuck_witness :
  let s := Machine zero_table (replicate 1000 0) 1001 0 0 1 0 [] in
  NUM_CAPTURES < capture_idx s /\
  finished_capturing (run_isrs ramp_samples s) = 0.
Proof.
  intros s.
  assert (H : NUM_CAPTURES < capture_idx s) by (unfold NUM_CAPTURES; cbn; lia).
  split; [exact H|].
  destruct (cursor_beyond_capacity_is_stuck s ramp_samples H) as (_ & _ & Hf & _).
  exact Hf.
Defined.

(** ** Invariants of the whole program *)

Lemma OC1_isr_well_formed (s : machine) :
  well_formed s -> well_formed (exec OC1_isr s).
Proof.
  intros (Hc & Hb & Ho). unfold well_formed.
  destruct (Z_lt_ge_dec (capture_idx s) NUM_CAPTURES) as [H|H].
  - rewrite OC1_isr_append by exact H.
    cbn [capture_idx capture_values num_occurances].
    rewrite length_insert. unfold NUM_CAPTURES in *.
    rewrite wrap16_small by lia. repeat split; auto; lia.
  - rewrite OC1_isr_full by lia.
    cbn [capture_idx capture_values num_occurances]. repeat split; auto; lia.
Qed.

Lemma perform_well_formed (a : activity) (s : machine) :
  well_formed s -> well_formed (exec (perform a) s).
Proof.
  intros Hwf. destruct a as [tc|tc| | | | |ch]; cbn [perform].
  - rewrite isr_invocation_latch. apply OC1_isr_well_formed. exact Hwf.
  - destruct (Z.eq_dec (TIE_C1I s) 0) as [Hd|He].
    + rewrite capture_edge_disabled by exact Hd. exact Hwf.
    + rewrite capture_edge_enabled, isr_invocation_latch by exact He.
      apply OC1_isr_well_formed. exact Hwf.
  - destruct Hwf as (Hc & Hb & Ho). unfold well_formed.
    change (capture_idx (exec init_buckets s)) with (capture_idx s).
    change (capture_values (exec init_buckets s)) with (capture_values s).
    rewrite init_buckets_table. split; [exact Hc|]. split; [exact Hb | reflexivity].
  - destruct Hwf as (Hc & Hb & Ho). unfold well_formed.
    change (capture_idx (exec process_values s)) with (capture_idx s).
    change (capture_values (exec process_values s)) with (capture_values s).
    rewrite process_values_table. unfold process_loop. rewrite length_process_fold.
    split; [exact Hc|]. split; [exact Hb | exact Ho].
  - rewrite print_values_exec. exact Hwf.
  - rewrite post_capture_exec, print_values_exec.
    destruct Hwf as (Hc & Hb & Ho). unfold well_formed, with_trace.
    cbn [capture_idx capture_values num_occurances].
    change (capture_idx (exec process_values s)) with (capture_idx s).
    change (capture_values (exec process_values s)) with (capture_values s).
    rewrite process_values_table. unfold process_loop. rewrite length_process_fold.
    split; [exact Hc|]. split; [exact Hb | exact Ho].
  - rewrite pre_capture_exec. destruct Hwf as (Hc & Hb & Ho).
    unfold well_formed, NUM_CAPTURES in *. cbn [capture_idx capture_values num_occurances].
    split; [lia|]. split; [exact Hb | reflexivity].
Qed.

(** Whatever the program does, in whatever order (ISR invocations, edges,
    table reset, histogram, report, the controller's reset), the cursor
    stays within [0, NUM_CAPTURES] and the buffer and the table keep their
    declared sizes. *)
Theorem well_formed_invariant (acts : list activity) (s : machine) :
  well_formed s -> well_formed (run_activities acts s).
Proof.
  revert s. induction acts as [|a acts IH]; intros s Hwf; [exact Hwf|].
  cbn [run_activities fold_left]. apply IH. apply perform_well_formed. exact Hwf.
Qed.

Lemma well_formed_invariant_witness :
  let s := armed (replicate 1000 0) zero_table in
  well_formed s /\
  well_formed (run_activities [ActPreCapture 13; ActEdge 7; ActIsr 8; ActPostCapture] s).
Proof.
  intros s.
  assert (H : well_formed s).
  { unfold well_formed, NUM_CAPTURES. cbn [s armed capture_idx]. repeat split; lia. }
  split; [exact H|].
  exact (well_formed_invariant [ActPreCapture 13; ActEdge 7; ActIsr 8; ActPostCapture] s H).
Defined.

(** The reporter only prints: the table, the buffer, the cursor, the flag
    and the registers are as before, so that reporting again prints the same
    lines again. *)
Theorem print_values_only_prints (s : machine) :
  let s' := exec print_values s in
  num_occurances s' = num_occurances s /\
  capture_values s' = capture_values s /\
  capture_idx s' = capture_idx s /\
  finished_capturing s' = finished_capturing s /\
  TIE_C1I s' = TIE_C1I s /\ TFLG1 s' = TFLG1 s /\ TC1 s' = TC1 s /\
  effects print_values s' = effects print_values s /\
  (length (effects print_values s) <= 102)%nat.
Proof.
  intros s'. subst s'. rewrite print_values_exec.
  do 7 (split; [reflexivity|]).
  assert (Heff : forall x, effects print_values x =
                 EvPrintf fmt_finished [] :: EvPrintf fmt_buckets_used [] ::
                 map (bucket_call (num_occurances x)) (used_buckets (num_occurances x))).
  { intros x. apply effects_app. rewrite print_values_exec. reflexivity. }
  split.
  - rewrite !Heff. reflexivity.
  - rewrite Heff. cbn [length]. rewrite length_map. unfold used_buckets.
    pose proof (length_filter (fun i => nth i (num_occurances s) 0 <> 0)
                  (seq 0 (Z.to_nat NUM_BUCKETS))) as Hf.
    rewrite length_seq in Hf. change (Z.to_nat NUM_BUCKETS) with 100%nat in *. lia.
Qed.

(** ** Rounds of the main loop *)

Lemma pre_capture_armed (ch : Z) (s : machine) :
  let s1 := exec (pre_capture ch) s in
  capture_idx s1 = 0 /\ finished_capturing s1 = 0 /\ TIE_C1I s1 = 1 /\
  capture_values s1 = capture_values s /\ num_occurances s1 = zero_table.
Proof. cbv zeta. rewrite pre_capture_exec. repeat split. Qed.

Lemma capture_buffer_frame (s : machine) (tcs : list Z) :
  capture_idx s = 0 -> finished_capturing s = 0 -> TIE_C1I s = 1 ->
  length (capture_values s) = Z.to_nat NUM_CAPTURES ->
  NUM_CAPTURES < Z.of_nat (length tcs) ->
  capture_values (run_edges tcs s) = kept_samples tcs /\
  num_occurances (run_edges tcs s) = num_occurances s.
Proof.
  intros Hidx Hfin Hen Hlen Hmany.
  destruct (run_edges_buffer s tcs Hidx Hfin Hen Hlen) as [Hb Ho].
  split; [|exact Ho]. rewrite Hb.
  rewrite drop_ge; [apply app_nil_r|].
  unfold kept_samples. rewrite length_map, length_take, Hlen.
  unfold NUM_CAPTURES in *. lia.
Qed.

Lemma nth_kept_samples (tcs : list Z) (i : nat) :
  (i < 1000)%nat -> nth i (kept_samples tcs) 0 = wrap16 (nth i tcs 0).
Proof.
  intros Hi. unfold kept_samples. change (Z.to_nat NUM_CAPTURES) with 1000%nat.
  transitivity (wrap16 (nth i (take 1000 tcs) 0)).
  - exact (map_nth wrap16 (take 1000 tcs) 0 i).
  - rewrite nth_firstn. destruct (Nat.ltb_spec i 1000); [reflexivity | lia].
Qed.

(** Counter [j] of the histogram of a round is the number of intervals of
    [j + LOW_PERIOD] ticks among its first [NUM_CAPTURES] edges. *)
Lemma histogram_counts_intervals (tcs : list Z) (j : nat) :
  (j < 100)%nat ->
  nth j (histogram_of tcs) 0 = Z.of_nat (interval_count tcs j).
Proof.
  intros Hj. unfold histogram_of. rewrite nth_process_loop_zero.
  rewrite hits_interval_count by exact Hj. f_equal.
  unfold interval_count. f_equal. apply filter_ext_elem.
  intros i Hi. apply elem_of_seq in Hi.
  rewrite !nth_kept_samples by lia.
  unfold wrap16. rewrite <- Zminus_mod. reflexivity.
Qed.

Lemma main_round_Some_iff (rereads : bool) (ch : Z) (tcs : list Z) (s : machine) :
  (is_Some (main_round rereads ch tcs s) <->
   rereads = true /\ NUM_CAPTURES < Z.of_nat (length tcs)) /\
  main_round false ch tcs s = None /\
  (Z.of_nat (length tcs) <= NUM_CAPTURES -> main_round rereads ch tcs s = None).
Proof.
  destruct (pre_capture_armed ch s) as (Hidx & Hfin & Hen & _).
  destruct (run_edges_state (exec (pre_capture ch) s) tcs Hidx Hfin Hen) as (_ & Hf & _).
  cbv zeta in Hf. unfold main_round. rewrite Hf.
  split; [|split; [reflexivity|]].
  - destruct rereads; cbn [andb];
      destruct (Z.leb_spec (Z.of_nat (length tcs)) NUM_CAPTURES) as [Hle|Hgt]; cbn.
    + split; [intros [x Hx]; discriminate Hx | intros [_ H]; lia].
    + split; [intros _; split; [reflexivity | exact Hgt] | eauto].
    + split; [intros [x Hx]; discriminate Hx | intros [H _]; discriminate H].
    + split; [intros [x Hx]; discriminate Hx | intros [H _]; discriminate H].
  - intros Hle. destruct (Z.leb_spec (Z.of_nat (length tcs)) NUM_CAPTURES); [|lia].
    destruct rereads; reflexivity.
Qed.

Lemma main_round_state (rereads : bool) (ch : Z) (tcs : list Z) (s s' : machine) :
  length (capture_values s) = Z.to_nat NUM_CAPTURES ->
  main_round rereads ch tcs s = Some s' ->
  rereads = true /\ NUM_CAPTURES < Z.of_nat (length tcs) /\
  capture_values s' = kept_samples tcs /\
  num_occurances s' = histogram_of tcs /\
  (forall j, (j < 100)%nat ->
     nth j (num_occurances s') 0 = Z.of_nat (interval_count tcs j)) /\
  capture_idx s' = NUM_CAPTURES /\
  finished_capturing s' = 1 /\ TIE_C1I s' = 0 /\
  exists before,
    trace s' = before ++
      EvPrintf fmt_finished [] :: EvPrintf fmt_buckets_used [] ::
      map (bucket_call (histogram_of tcs)) (used_buckets (histogram_of tcs)).
Proof.
  intros Hlen Hround.
  assert (Hsome : rereads = true /\ NUM_CAPTURES < Z.of_nat (length tcs)).
  { apply (main_round_Some_iff rereads ch tcs s). rewrite Hround. eauto. }
  destruct Hsome as [-> Hmany]. split; [reflexivity|]. split; [exact Hmany|].
  destruct (pre_capture_armed ch s) as (Hidx & Hfin & Hen & Hcaps & Hocc).
  unfold main_round in Hround. cbn [andb] in Hround.
  set (s1 := exec (pre_capture ch) s) in *.
  assert (Hlen1 : length (capture_values s1) = Z.to_nat NUM_CAPTURES)
    by (rewrite Hcaps; exact Hlen).
  destruct (run_edges_state s1 tcs Hidx Hfin Hen) as (Hc & Hf & He & _).
  destruct (capture_buffer_frame s1 tcs Hidx Hfin Hen Hlen1 Hmany) as [Hb Ho].
  cbv zeta in Hc, Hf, He.
  destruct (Z.leb_spec (Z.of_nat (length tcs)) NUM_CAPTURES) as [Hle|_]; [lia|].
  set (s2 := run_edges tcs s1) in *.
  rewrite Hf in Hround. cbn in Hround. injection Hround as <-.
  assert (Htab : num_occurances (exec process_values s2) = histogram_of tcs).
  { rewrite process_values_table, Hb, Ho, Hocc. reflexivity. }
  rewrite post_capture_exec, print_values_exec.
  unfold with_trace.
  cbn [capture_values num_occurances capture_idx finished_capturing TIE_C1I trace].
  rewrite Htab.
  change (capture_values (exec process_values s2)) with (capture_values s2).
  change (capture_idx (exec process_values s2)) with (capture_idx s2).
  change (finished_capturing (exec process_values s2)) with (finished_capturing s2).
  change (TIE_C1I (exec process_values s2)) with (TIE_C1I s2).
  rewrite Hb, Hc, Hf, He.
  split; [reflexivity|]. split; [reflexivity|].
  split; [intros j Hj; apply histogram_counts_intervals; exact Hj|].
  split; [unfold NUM_CAPTURES in *; lia|].
  split; [reflexivity|]. split; [reflexivity|].
  eexists. reflexivity.
Qed.



(** What a round leaves when it completes: the wait loop has read the flag
    again and more than [NUM_CAPTURES] edges have arrived; the buffer holds
    the first [NUM_CAPTURES] samples of the round; counter [j] of the table
    is the number of intervals of [j + LOW_PERIOD] ticks between these
    samples, with nothing of an earlier round in it; the interrupt is
    disabled, the flag set, and the last thing printed is the report of this
    table. *)
Theorem main_round_result (rereads : bool) (ch : Z) (tcs : list Z) (s s' : machine) :
  length (capture_values s) = Z.to_nat NUM_CAPTURES ->
  main_round rereads ch tcs s = Some s' ->
  rereads = true /\ NUM_CAPTURES < Z.of_nat (length tcs) /\
  capture_values s' = kept_samples tcs /\
  num_occurances s' = histogram_of tcs /\
  (forall j, (j < 100)%nat ->
     nth j (num_occurances s') 0 = Z.of_nat (interval_count tcs j)) /\
  capture_idx s' = NUM_CAPTURES /\
  finished_capturing s' = 1 /\ TIE_C1I s' = 0 /\
  exists before,
    trace s' = before ++
      EvPrintf fmt_finished [] :: EvPrintf fmt_buckets_used [] ::
      map (bucket_call (histogram_of tcs)) (used_buckets (histogram_of tcs)).
Proof. exact (main_round_state rereads ch tcs s s'). Qed.

Lemma main_round_result_witness :
  let s := armed (replicate 1000 0) example_table in
  let tcs := ramp_samples ++ [0] in
  length (capture_values s) = Z.to_nat NUM_CAPTURES /\
  exists s', main_round true 13 tcs s = Some s' /\
             nth 50 (num_occurances s') 0 = Z.of_nat (interval_count tcs 50) /\
             interval_count tcs 50 = 999%nat.
Proof.
  intros s tcs.
  assert (Hlen : length (capture_values s) = Z.to_nat NUM_CAPTURES) by reflexivity.
  split; [exact Hlen|].
  destruct (main_round true 13 tcs s) as [s'|] eqn:E.
  - exists s'. split; [reflexivity|].
    destruct (main_round_result true 13 tcs s s' Hlen E) as (_ & _ & _ & _ & Hcount & _).
    split; [apply Hcount; lia | vm_compute; reflexivity].
  - vm_compute in E. discriminate E.
Defined.





(** ** Start-up constants and the polled serial port *)

(** The timer-compare value for an output frequency of [f] Hz is
    [500000 / f], reduced modulo [2^16] by the cast to [UINT16]: it is the
    exact quotient from 8 Hz on, and silently truncated below; at the
    configured 10 Hz it is 50000. *)
Theorem TC1_VAL_truncation (f : Z) :
  0 < f < 65536 ->
  TC1_VAL_at f = (500000 / f) mod 65536 /\
  (TC1_VAL_at f = 500000 / f <-> 8 <= f) /\
  TC1_VAL = 50000.
Proof.
  intros Hf.
  assert (Hq : 0 <= 500000 / f <= 500000).
  { split; [apply Z.div_pos; lia|]. apply Z.div_le_upper_bound; nia. }
  assert (Hval : TC1_VAL_at f = (500000 / f) mod 65536).
  { unfold TC1_VAL_at.
    change (wrap32 (wrap32 (BUS_CLK_FREQ / PRESCALE) / 2)) with 500000.
    unfold wrap16, wrap32. rewrite (Z.mod_small (500000 / f)) by lia. reflexivity. }
  split; [exact Hval|]. split; [|reflexivity].
  rewrite Hval. split.
  - intros E. destruct (Z_lt_ge_dec f 8) as [Hlt|Hge]; [exfalso|lia].
    assert (Hbig : 65536 <= 500000 / f) by (apply Z.div_le_lower_bound; lia).
    pose proof (Z.mod_pos_bound (500000 / f) 65536 ltac:(lia)). lia.
  - intros Hge. apply Z.mod_small. split; [lia|].
    apply Z.div_lt_upper_bound; lia.
Qed.

Lemma TC1_VAL_truncation_witness :
  0 < 5 < 65536 /\ TC1_VAL_at 5 = 34464 /\ 500000 / 5 = 100000.
Proof.
  assert (H : 0 < 5 < 65536) by lia.
  split; [exact H|].
  destruct (TC1_VAL_truncation 5 H) as (Hv & _ & _).
  split; [rewrite Hv; reflexivity | reflexivity].
Defined.

(** [GetChar] returns the byte that is in the data register at the first
    poll that finds the receive flag set, after any number of polls that
    find it clear, and consumes the polls up to that one; as long as the
    flag stays clear it does not return. *)
Theorem GetChar_polled_first_ready (rx : list (Z * Z)) :
  (GetChar_polled rx = None <-> Forall (fun p => fst p = 0) rx) /\
  (forall c rest,
      GetChar_polled rx = Some (c, rest) <->
      exists waiting r d,
        rx = waiting ++ (r, d) :: rest /\
        Forall (fun p => fst p = 0) waiting /\ r <> 0 /\ c = wrap8 d) /\
  (forall c rest, GetChar_polled rx = Some (c, rest) -> 0 <= c < 256).
Proof.
  induction rx as [|[r d] rx IH].
  - split; [split; [constructor | reflexivity]|]. split.
    + intros c rest. split; [discriminate|].
      intros (w & r & d & E & _). destruct w; discriminate E.
    + discriminate.
  - destruct IH as (IHn & IHs & IHr). cbn [GetChar_polled].
    destruct (Z.eqb_spec r 0) as [->|Hr].
    + split; [|split].
      * rewrite IHn, Forall_cons. cbn [fst]. tauto.
      * intros c rest. rewrite IHs. split.
        -- intros (w & r & d' & -> & Hw & Hr & ->).
           exists ((0, d) :: w), r, d'. repeat split; auto.
        -- intros (w & r & d' & E & Hw & Hr & ->).
           destruct w as [|[r0 d0] w]; cbn in E; injection E as E1 E2 E3.
           ++ congruence.
           ++ subst. apply Forall_cons in Hw as [_ Hw].
              exists w, r, d'. repeat split; auto.
      * exact IHr.
    + split; [|split].
      * split; [discriminate|]. intros H. apply Forall_cons in H as [H _]. contradiction.
      * intros c rest. split.
        -- intros [= <- <-]. exists [], r, d. repeat split; auto.
        -- intros (w & r' & d' & E & Hw & Hr' & ->).
           destruct w as [|[r0 d0] w]; cbn in E; injection E as E1 E2 E3.
           ++ subst. reflexivity.
           ++ subst. apply Forall_cons in Hw as [Hw _]. contradiction.
      * intros c rest [= <- _]. unfold wrap8. apply Z.mod_pos_bound. lia.
Qed.

(** [TERMIO_PutChar] writes its character, as a byte, exactly once: at the
    first poll that finds the transmitter idle, after any number of polls
    that find it busy; while the transmitter stays busy nothing is
    written. *)
Theorem TERMIO_PutChar_polled_waits (ch : Z) (tx : list Z) :
  (TERMIO_PutChar_polled ch tx = None <-> Forall (fun tc => tc = 0) tx) /\
  (forall b rest,
      TERMIO_PutChar_polled ch tx = Some (b, rest) <->
      exists busy tc,
        tx = busy ++ tc :: rest /\
        Forall (fun tc => tc = 0) busy /\ tc <> 0 /\ b = wrap8 ch).
Proof.
  induction tx as [|tc tx IH].
  - split; [split; [constructor | reflexivity]|].
    intros b rest. split; [discriminate|].
    intros (w & r & E & _). destruct w; discriminate E.
  - destruct IH as (IHn & IHs). cbn [TERMIO_PutChar_polled].
    destruct (Z.eqb_spec tc 0) as [->|Hr].
    + split.
      * rewrite IHn, Forall_cons. tauto.
      * intros b rest. rewrite IHs. split.
        -- intros (w & r & -> & Hw & Hr & ->).
           exists (0 :: w), r. repeat split; auto.
        -- intros (w & r & E & Hw & Hr & ->).
           destruct w as [|r0 w]; cbn in E; injection E as E1 E2.
           ++ congruence.
           ++ subst. apply Forall_cons in Hw as [_ Hw].
              exists w, r. repeat split; auto.
    + split.
      * split; [discriminate|]. intros H. apply Forall_cons in H as [H _]. contradiction.
      * intros b rest. split.
        -- intros [= <- <-]. exists [], tc. repeat split; auto.
        -- intros (w & r' & E & Hw & Hr' & ->).
           destruct w as [|r0 w]; cbn in E; injection E as E1 E2.
           ++ subst. reflexivity.
           ++ subst. apply Forall_cons in Hw as [Hw _]. contradiction.
Qed.

Lemma GetChar_polled_first_ready_witness :
  GetChar_polled [(0, 5); (0, 6); (1, 269); (1, 7)] = Some (13, [(1, 7)]).
Proof.
  destruct (GetChar_polled_first_ready [(0, 5); (0, 6); (1, 269); (1, 7)]) as (_ & H & _).
  apply H. exists [(0, 5); (0, 6)], 1, 269.
  split; [reflexivity|]. split; [repeat constructor|]. split; [discriminate | reflexivity].
Defined.

Lemma TERMIO_PutChar_polled_waits_witness :
  TERMIO_PutChar_polled (-1) [0; 0; 1; 0] = Some (255, [0]).
Proof.
  destruct (TERMIO_PutChar_polled_waits (-1) [0; 0; 1; 0]) as (_ & H).
  apply H. exists [0; 0], 1.
  split; [reflexivity|]. split; [repeat constructor|]. split; [discriminate | reflexivity].
Defined.

(** ** The histogram depends on intervals only *)

Lemma process_pair_delta (prev cur prev' cur' : Z) (occ : list Z) :
  wrap16 (cur - prev) = wrap16 (cur' - prev') ->
  process_pair prev cur occ = process_pair prev' cur' occ.
Proof. intros E. unfold process_pair. rewrite E. reflexivity. Qed.

Lemma fold_left_ext_indices (f g : list Z -> nat -> list Z) (l : list nat) (occ : list Z) :
  (forall i o, i ∈ l -> f o i = g o i) -> fold_left f l occ = fold_left g l occ.
Proof.
  revert occ. induction l as [|i l IH]; intros occ H; [reflexivity|].
  cbn [fold_left]. rewrite (H i occ) by left.
  apply IH. intros j o Hj. apply H. right. exact Hj.
Qed.

(** Shifting every sample of the buffer by the same number of ticks (the
    timer started at another count), with 16-bit wrap-around, gives the same
    histogram: [process_values] looks at the intervals between the edges,
    not at the timer values. *)
Theorem histogram_shift_invariant (c : Z) (caps occ : list Z) :
  length caps = Z.to_nat NUM_CAPTURES ->
  process_loop (Z.to_nat NUM_CAPTURES) (map (fun x => wrap16 (x + c)) caps) occ =
  process_loop (Z.to_nat NUM_CAPTURES) caps occ.
Proof.
  intros Hlen. unfold process_loop. apply fold_left_ext_indices.
  intros i o Hi. unfold loop_indices in Hi.
  change (Z.to_nat NUM_CAPTURES) with 1000%nat in *.
  apply elem_of_seq in Hi.
  unfold process_iter. apply process_pair_delta.
  rewrite !(nth_indep (map _ caps) 0 (wrap16 (0 + c))) by (rewrite length_map; lia).
  rewrite !(map_nth (fun x => wrap16 (x + c))).
  unfold wrap16. rewrite <- Zminus_mod. f_equal. lia.
Qed.

Lemma histogram_shift_invariant_witness :
  length ramp_samples = Z.to_nat NUM_CAPTURES /\
  process_loop (Z.to_nat NUM_CAPTURES) (map (fun x => wrap16 (x + 12345)) ramp_samples)
               zero_table =
  process_loop (Z.to_nat NUM_CAPTURES) ramp_samples zero_table.
Proof.
  assert (Hlen : length ramp_samples = Z.to_nat NUM_CAPTURES) by reflexivity.
  split; [exact Hlen|].
  exact (histogram_shift_invariant 12345 ramp_samples zero_table Hlen).
Defined.

(** The loop of [process_values] stays inside its arrays: it reads the
    capture buffer at the indices 0 to 999 only, so that whatever follows
    the 1000 captures in memory has no influence on the result; it keeps the
    size of the table, and whatever follows the 100 counters in memory comes
    out unchanged. *)
Theorem process_values_stays_in_table (caps occ behind_caps behind_occ : list Z) :
  length caps = Z.to_nat NUM_CAPTURES ->
  length occ = Z.to_nat NUM_BUCKETS ->
  let n := Z.to_nat NUM_CAPTURES in
  process_loop n (caps ++ behind_caps) occ = process_loop n caps occ /\
  (forall i t, i ∈ loop_indices n ->
     (i - 1 < length caps)%nat /\ (i < length caps)%nat /\
     process_iter (caps ++ behind_caps) t i =
       process_pair (nth (i - 1) caps 0) (nth i caps 0) t) /\
  process_loop n caps (occ ++ behind_occ) = process_loop n caps occ ++ behind_occ /\
  length (process_loop n caps occ) = Z.to_nat NUM_BUCKETS /\
  Forall (fun i => (1 <= i)%nat /\ (i < n)%nat) (loop_indices n).
Proof.
  intros Hcaps Hlen n. subst n.
  change (Z.to_nat NUM_BUCKETS) with 100%nat in *.
  change (Z.to_nat NUM_CAPTURES) with 1000%nat in *.
  assert (Hidx : forall i, i ∈ loop_indices 1000 -> (1 <= i < 1000)%nat).
  { intros i Hi. unfold loop_indices in Hi. apply elem_of_seq in Hi. lia. }
  assert (Hread : forall i t, i ∈ loop_indices 1000 ->
            process_iter (caps ++ behind_caps) t i =
            process_pair (nth (i - 1) caps 0) (nth i caps 0) t).
  { intros i t Hi. apply Hidx in Hi. unfold process_iter.
    rewrite !app_nth1 by lia. reflexivity. }
  split; [|split; [|split; [|split]]].
  - unfold process_loop. apply fold_left_ext_indices.
    intros i o Hi. rewrite Hread by exact Hi. reflexivity.
  - intros i t Hi. pose proof (Hidx i Hi). split; [lia|]. split; [lia|].
    apply Hread. exact Hi.
  - unfold process_loop. generalize (loop_indices 1000) as l.
    intros l. revert occ Hlen. induction l as [|i l IH]; intros occ Hlen; [reflexivity|].
    simpl fold_left. unfold process_iter at 2 4.
    rewrite process_pair_frame by exact Hlen.
    apply IH. rewrite length_process_pair. exact Hlen.
  - unfold process_loop. rewrite length_process_fold. exact Hlen.
  - apply Forall_forall. intros i Hi. apply Hidx in Hi. lia.
Qed.

Lemma process_values_stays_in_table_witness :
  length example_snapshot = Z.to_nat NUM_CAPTURES /\
  length example_table = Z.to_nat NUM_BUCKETS /\
  process_loop (Z.to_nat NUM_CAPTURES) (example_snapshot ++ [6000; 7000]) example_table =
  process_loop (Z.to_nat NUM_CAPTURES) example_snapshot example_table /\
  process_loop (Z.to_nat NUM_CAPTURES) example_snapshot (example_table ++ [41; 42]) =
  process_loop (Z.to_nat NUM_CAPTURES) example_snapshot example_table ++ [41; 42].
Proof.
  assert (Hcaps : length example_snapshot = Z.to_nat NUM_CAPTURES) by reflexivity.
  assert (Hlen : length example_table = Z.to_nat NUM_BUCKETS) by reflexivity.
  split; [exact Hcaps|]. split; [exact Hlen|].
  destruct (process_values_stays_in_table example_snapshot example_table
              [6000; 7000] [41; 42] Hcaps Hlen) as (H1 & _ & H2 & _).
  split; [exact H1 | exact H2].
Defined.
